(** * News pipeline ([index.py]): fetch, deduplicate, sort, score, filter, report

    A shallow embedding of [NewsFetcher] and [NewsParser].

    - A Python [str] is a [string] holding the bytes of its UTF-8 encoding.
      On UTF-8 the substring test and the lexicographic order coincide with
      the ones Python computes on code points.
    - An article is a Python dict that the program uses as a record; it is
      modelled by a record whose fields are optional, a field being [None]
      when the key is absent from the dict.  Values are typed as the data
      model types them: strings, and a float for the score.
    - Article dicts are mutable and shared between the lists of [main]:
      lists hold references into a heap of articles.
    - An exception that no handler of the program catches ends the run; it
      is a [Raise] result.  Calls to [logging] are left out.
    - What lies outside the program is a parameter: the answers of the HTTP
      endpoint ([network]), the sentiment classifier (a field of
      [NewsParser]) and the rendering of a float with two decimals
      ([format_2f]). *)

From Stdlib Require Import Strings.String Strings.Ascii Floats.PrimFloat ZArith.
From Stdlib Require Import Structures.OrderedTypeEx.
From stdpp Require Import base option list sorting gmap strings.

#[local] Set Warnings "-clear-no-such-hyp,-register-all".

(** ** Results and exceptions *)

Inductive exn :=
| KeyError (key : string)
| UnboundLocalError (var : string)
| JSONDecodeError.

Inductive result (A : Type) :=
| Ok (a : A)
| Raise (e : exn).
Arguments Ok {A} a.
Arguments Raise {A} e.

Definition bind {A B} (m : result A) (f : A → result B) : result B :=
  match m with
  | Ok a => f a
  | Raise e => Raise e
  end.

Notation "'let?' x := m 'in' k" := (bind m (λ x, k))
  (at level 10, x name, m at level 100, k at level 200).
Notation "'let?' ' p := m 'in' k" := (bind m (λ x, match x with p => k end))
  (at level 10, p pattern, m at level 100, k at level 200).

(** ** Strings *)

(** [k in s] for two strings. *)
Fixpoint str_in (k s : string) : bool :=
  String.prefix k s ||
  match s with
  | EmptyString => false
  | String _ s' => str_in k s'
  end.

Definition dquote : string := String "034"%char EmptyString.

(** The float that the literal [0.1] denotes. *)
Definition float_0_1 : float := 0x1.999999999999ap-4%float.

(** ** Articles and the heap *)

Record article := Article {
  title : option string;
  link : option string;
  published : option string;
  description : option string;
  sentiment : option string;
  subjectivity : option float
}.

(** The empty dict. *)
Definition empty_article : article := Article None None None None None None.

Global Instance article_inhabited : Inhabited article := populate empty_article.

(** [article['sentiment'] = v] and [article['subjectivity'] = v]. *)
Definition set_sentiment (v : string) (a : article) : article :=
  Article (title a) (link a) (published a) (description a) (Some v)
    (subjectivity a).

Definition set_subjectivity (v : float) (a : article) : article :=
  Article (title a) (link a) (published a) (description a) (sentiment a)
    (Some v).

(** A reference to an article dict, and the heap the references point into. *)
Abbreviation loc := nat (only parsing).
Abbreviation heap := (list article) (only parsing).

(** The dict behind a reference.  Every reference of the program comes from
    [alloc]; a number that is no reference of the heap reads as the empty
    dict, and writing to it changes nothing. *)
Definition deref (h : heap) (r : loc) : article := h !!! r.

(** A new dict object. *)
Definition alloc (a : article) (h : heap) : loc * heap := (length h, h ++ [a]).

(** [article[key]]: raises [KeyError] when the key is absent. *)
Definition getitem {A} (field : article → option A) (key : string)
    (h : heap) (r : loc) : result A :=
  match field (deref h r) with
  | Some v => Ok v
  | None => Raise (KeyError key)
  end.

(** [article.get(key, '')]. *)
Definition get_or_empty (field : article → option string)
    (h : heap) (r : loc) : string :=
  default "" (field (deref h r)).

(** ** Python dicts keyed by strings, in insertion order *)

Definition pydict (V : Type) := list (string * V).

(** [d[k] = v]: an existing key keeps its position and takes the new value,
    a new key goes to the end. *)
Fixpoint dict_setitem {V} (k : string) (v : V) (d : pydict V) : pydict V :=
  match d with
  | [] => [(k, v)]
  | (k', v') :: d' =>
      if String.eqb k' k then (k', v) :: d'
      else (k', v') :: dict_setitem k v d'
  end.

Definition dict_keys {V} (d : pydict V) : list string := d.*1.
Definition dict_values {V} (d : pydict V) : list V := d.*2.

(** ** JSON documents and files *)

Inductive json :=
| JString (s : string)
| JNumber (x : float)
| JArray (items : list json)
| JObject (members : list (string * json)).

(** What [json.dump] is given for an article: the keys that the dict has.
    The record keeps no insertion order: the members are listed in the order
    [title], [link], [published], [description], [sentiment],
    [subjectivity], which need not be the order in which [json.dump] writes
    them, and no statement below depends on the order of the members of an
    article.  The layout of the text (indent, number syntax) is not
    modelled either. *)
Definition json_of_article (a : article) : json :=
  JObject (omap id
    [ (λ v, ("title", JString v)) <$> title a;
      (λ v, ("link", JString v)) <$> link a;
      (λ v, ("published", JString v)) <$> published a;
      (λ v, ("description", JString v)) <$> description a;
      (λ v, ("sentiment", JString v)) <$> sentiment a;
      (λ v, ("subjectivity", JNumber v)) <$> subjectivity a ]).

Inductive file :=
| JsonFile (doc : json)
| TextFile (content : string).

(** The files of the working directory, by name. *)
Abbreviation files := (gmap string file).

(** ** Constants of the module *)

Definition HEADERS : list (string * string) :=
  [("User-Agent", "Mozilla/5.0"); ("Accept-Language", "en-US,en;q=0.9")].

Definition keywords_vish : list string :=
  ["инженерная школа"; "РУТ МИИТ"; "ВИШ"].
Definition keywords_high_speed : list string :=
  ["ВСМ"; "скоростные магистрали"; "высокоскоростной"].
Definition keywords_rzd : list string :=
  ["РЖД"; "Российские железные дороги"].

(** ** The HTTP layer ([requests], [urllib3]) *)

(** The retry configuration handed to the adapters. *)
Record Retry := {
  total : nat;
  backoff_factor : float;
  status_forcelist : list Z
}.

(** A response: its status, its body as text, the body parsed as JSON when
    it is JSON, and whether it carries a [Retry-After] header (with a value
    that [urllib3] can read).  The parsed body is typed by the API contract:
    an object with an optional [articles] array of objects with optional
    string members. *)
Record raw_article := {
  raw_title : option string;
  raw_url : option string;
  raw_publishedAt : option string
}.

Record payload := { articles : option (list raw_article) }.

Record Response := {
  status_code : Z;
  text : string;
  parsed : option payload;
  retry_after : bool
}.

(** One attempt at a request: the connection fails, or a response arrives. *)
Inductive attempt :=
| ConnectionFailed
| Answered (response : Response).

(** The endpoint: what the [n]-th attempt at a URL with given headers
    meets. *)
Definition network := string → list (string * string) → nat → attempt.

Inductive RequestException :=
| ConnectionError
| RetryError
| HTTPError.

Inductive get_result :=
| Returned (response : Response)
| Raised (e : RequestException).

(** [Retry.RETRY_AFTER_STATUS_CODES]. *)
Definition RETRY_AFTER_STATUS_CODES : list Z := [413; 429; 503]%Z.

(** [Retry.is_retry] for a GET, with the defaults that [__init__] leaves
    ([respect_retry_after_header] is true): the status is in
    [status_forcelist], or retries remain and the response carries
    [Retry-After] with one of the statuses above. *)
Definition is_retry (retries : Retry) (retries_left : nat)
    (response : Response) : bool :=
  bool_decide (status_code response ∈ status_forcelist retries)
  || negb (retries_left =? 0) && retry_after response
     && bool_decide (status_code response ∈ RETRY_AFTER_STATUS_CODES).

(** The adapter's loop, as [urllib3] has it ([urlopen], [Retry.is_retry],
    [Retry.increment]): a failed connection and a response that [is_retry]
    accepts consume one retry and the request is sent again; when none is
    left the failure is raised ([raise_on_status] has its default).  The
    waiting time between two attempts ([backoff_factor], [Retry-After]) is
    not part of the model. *)
Fixpoint send (retries : Retry) (endpoint : nat → attempt)
    (retries_left : nat) (n : nat) : get_result :=
  match endpoint n with
  | ConnectionFailed =>
      match retries_left with
      | 0 => Raised ConnectionError
      | S k => send retries endpoint k (S n)
      end
  | Answered response =>
      if is_retry retries retries_left response then
        match retries_left with
        | 0 => Raised RetryError
        | S k => send retries endpoint k (S n)
        end
      else Returned response
  end.

(** A session with the same adapter mounted for [http://] and [https://]. *)
Record Session := { max_retries : Retry }.

Definition session_get (s : Session) (net : network) (url : string)
    (headers : list (string * string)) : get_result :=
  send (max_retries s) (net url headers) (total (max_retries s)) 0.

(** [response.raise_for_status()]: [HTTPError] on a 4xx or 5xx status. *)
Definition raise_for_status (response : Response) : option RequestException :=
  if bool_decide (400 ≤ status_code response < 600)%Z then Some HTTPError
  else None.

(** [response.json()]. *)
Definition response_json (response : Response) : result payload :=
  match parsed response with
  | Some p => Ok p
  | None => Raise JSONDecodeError
  end.

(** [requests.utils.quote]: letters, digits and [_.-~/] are kept, every
    other byte becomes [%XX]. *)
Definition is_safe (c : ascii) : bool :=
  let n := nat_of_ascii c in
  (65 <=? n) && (n <=? 90) || (97 <=? n) && (n <=? 122)
  || (48 <=? n) && (n <=? 57)
  || bool_decide (c ∈ ["_"; "."; "-"; "~"; "/"]%char).

Definition hex_digit (n : nat) : ascii :=
  default "0"%char (list_ascii_of_string "0123456789ABCDEF" !! n).

Fixpoint quote (s : string) : string :=
  match s with
  | EmptyString => EmptyString
  | String c s' =>
      if is_safe c then String c (quote s')
      else
        let n := nat_of_ascii c in
        String "%" (String (hex_digit (n / 16))
          (String (hex_digit (n mod 16)) (quote s')))
  end.

(** ** [NewsFetcher] *)

Record NewsFetcher := {
  api_key : string;
  session : Session
}.

(** [NewsFetcher.__init__]. *)
Definition NewsFetcher_init (api_key : string) : NewsFetcher :=
  let retries :=
    {| total := 5;
       backoff_factor := float_0_1;
       status_forcelist := [500; 502; 503; 504]%Z |} in
  {| api_key := api_key; session := {| max_retries := retries |} |}.

(** The list comprehension of [fetch_news]: one new dict per raw article. *)
Definition project (a : raw_article) : result article :=
  match raw_title a with
  | None => Raise (KeyError "title")
  | Some t =>
      match raw_url a with
      | None => Raise (KeyError "url")
      | Some u =>
          match raw_publishedAt a with
          | None => Raise (KeyError "publishedAt")
          | Some p => Ok (Article (Some t) (Some u) (Some p) None None None)
          end
      end
  end.

Fixpoint fetched_articles (raw : list raw_article) (h : heap)
    : result (list loc * heap) :=
  match raw with
  | [] => Ok ([], h)
  | a :: rest =>
      let? d := project a in
      let (r, h1) := alloc d h in
      let? '(rs, h2) := fetched_articles rest h1 in
      Ok (r :: rs, h2)
  end.

Definition search_url (self : NewsFetcher) (query : string) : string :=
  "https://newsapi.org/v2/everything?q=" +:+ quote query +:+ "&apiKey="
  +:+ api_key self.

(** The [try] block of [fetch_news]: the local [response] at its end
    ([None] while it is unbound) and the exception it ends with, if any. *)
Definition fetch_news_try (self : NewsFetcher) (net : network) (url : string)
    : option Response * option RequestException :=
  match session_get (session self) net url HEADERS with
  | Raised e => (None, Some e)
  | Returned response => (Some response, raise_for_status response)
  end.

Definition fetch_news (self : NewsFetcher) (net : network) (query : string)
    (h : heap) : result (list loc * heap) :=
  let url := search_url self query in
  match fetch_news_try self net url with
  | (response, Some e) =>
      (* the handler reads the local [response] *)
      match response with
      | None => Raise (UnboundLocalError "response")
      | Some _ => Ok ([], h)
      end
  | (None, None) => Raise (UnboundLocalError "response")
  | (Some response, None) =>
      let? body := response_json response in
      let articles := default [] (articles body) in
      fetched_articles articles h
  end.

Definition fetch_vish_news (self : NewsFetcher) (net : network) :=
  fetch_news self net "Высшая инженерная школа".

Definition fetch_high_speed_railways (self : NewsFetcher) (net : network) :=
  fetch_news self net "ВСМ".

Definition fetch_russian_railways (self : NewsFetcher) (net : network) :=
  fetch_news self net "РЖД Российские Железные дороги".

(** ** [NewsParser] *)

(** What the classifier answers for a text. *)
Record classification := { label : string; score : float }.

Record NewsParser := {
  fetcher : NewsFetcher;
  sentiment_model : string → classification
}.

(** *** Sorting *)

(** [sorted(..., reverse=True)] on pairs of a key and an item.  Python's sort
    is stable, also with [reverse=True], and a stable sort has one possible
    result: the one of this insertion sort, which puts an item before the
    first item of the sorted rest whose key is not greater. *)
Fixpoint insert_desc {V} (x : string * V) (l : list (string * V))
    : list (string * V) :=
  match l with
  | [] => [x]
  | y :: l' =>
      if String.ltb x.1 y.1 then y :: insert_desc x l' else x :: y :: l'
  end.

Definition sorted_reverse {V} (l : list (string * V)) : list V :=
  (foldr insert_desc [] l).*2.

(** The keys [x['published']], computed for every item before the sort. *)
Fixpoint published_keys (h : heap) (articles : list loc)
    : result (list (string * loc)) :=
  match articles with
  | [] => Ok []
  | x :: rest =>
      let? k := getitem published "published" h x in
      let? ks := published_keys h rest in
      Ok ((k, x) :: ks)
  end.

Definition filter_and_sort_articles (h : heap) (articles : list loc)
    : result (list loc) :=
  let? keyed := published_keys h articles in
  Ok (sorted_reverse keyed).

(** *** Sentiment *)

Definition analyze_article (self : NewsParser) (article : loc) (h : heap)
    : result heap :=
  let? title := getitem title "title" h article in
  let result := sentiment_model self title in
  let h := alter (set_sentiment (label result)) article h in
  let h := alter (set_subjectivity (score result)) article h in
  Ok h.

Fixpoint analyze_loop (self : NewsParser) (articles : list loc) (h : heap)
    : result heap :=
  match articles with
  | [] => Ok h
  | article :: rest =>
      let? h := analyze_article self article h in
      analyze_loop self rest h
  end.

Definition analyze_sentiment (self : NewsParser) (articles : list loc)
    (h : heap) : result (list loc * heap) :=
  let? h := analyze_loop self articles h in
  Ok (articles, h).

Definition adjust_article (article : loc) (h : heap) : result heap :=
  let? s := getitem sentiment "sentiment" h article in
  if String.eqb s "NEUTRAL"
  then Ok (alter (set_subjectivity float_0_1) article h)
  else Ok h.

Fixpoint adjust_loop (articles : list loc) (h : heap) : result heap :=
  match articles with
  | [] => Ok h
  | article :: rest =>
      let? h := adjust_article article h in
      adjust_loop rest h
  end.

Definition adjust_subjectivity (articles : list loc) (h : heap)
    : result (list loc * heap) :=
  let? h := adjust_loop articles h in
  Ok (articles, h).

(** *** Keyword filter *)

(** [any(keyword in title or keyword in summary for keyword in keywords)]. *)
Definition any_keyword (title summary : string) (keywords : list string)
    : bool :=
  existsb (λ keyword, str_in keyword title || str_in keyword summary) keywords.

Fixpoint filter_loop (h : heap) (articles : list loc) (keywords : list string)
    (filtered_articles : list loc) : list loc :=
  match articles with
  | [] => filtered_articles
  | article :: rest =>
      let title := get_or_empty title h article in
      let summary := get_or_empty description h article in
      if any_keyword title summary keywords
      then filter_loop h rest keywords (filtered_articles ++ [article])
      else filter_loop h rest keywords filtered_articles
  end.

Definition filter_articles_by_keywords (h : heap) (articles : list loc)
    (keywords : list string) : list loc :=
  filter_loop h articles keywords [].

(** *** Deduplication ([main], lines 153-156) *)

(** [{entry['link']: entry for entry in all_articles}], started from [d]. *)
Fixpoint dict_by_link (h : heap) (entries : list loc) (d : pydict loc)
    : result (pydict loc) :=
  match entries with
  | [] => Ok d
  | entry :: rest =>
      let? k := getitem link "link" h entry in
      dict_by_link h rest (dict_setitem k entry d)
  end.

(** [list({...}.values())]. *)
Definition unique_articles (h : heap) (all_articles : list loc)
    : result (list loc) :=
  let? d := dict_by_link h all_articles [] in
  Ok (dict_values d).

(** *** Report and dashboard *)

Definition json_of_articles (h : heap) (articles : list loc) : json :=
  JArray (json_of_article ∘ deref h <$> articles).

(** [save_to_json]: the dict of lists of articles, as [json.dump] finds it
    in the heap at the time of the call. *)
Definition save_to_json (h : heap) (result : pydict (list loc))
    (filename : string) (fs : files) : files :=
  <[filename := JsonFile (JObject (prod_map id (json_of_articles h) <$> result))]> fs.

Definition save_dashboard (html_content : string) (filename : string)
    (fs : files) : files :=
  <[filename := TextFile html_content]> fs.

Definition dashboard_header : string :=
  "
        <html>
        <head>
            <meta charset=" +:+ dquote +:+ "UTF-8" +:+ dquote +:+ ">
            <title>Новостная панель</title>
            <style>
                body { font-family: Arial, sans-serif; }
                h1 { color: #333; }
                ul { list-style-type: none; padding: 0; }
                li { margin: 10px 0; }
                a { text-decoration: none; color: #1a0dab; }
                a:hover { text-decoration: underline; }
            </style>
        </head>
        <body>
            <h1>Новостная панель</h1>
            <ul>
        ".

Definition dashboard_footer : string :=
  "
            </ul>
        </body>
        </html>
        ".

Definition sentiment_color (s : string) : string :=
  if String.eqb s "POSITIVE" then "green"
  else if String.eqb s "NEGATIVE" then "red" else "gray".

Section dashboard.
(** [f"{x:.2f}"]. *)
Variable format_2f : float → string.

(** The list item of one entry. *)
Definition dashboard_item (h : heap) (entry : loc) : result string :=
  let? s := getitem sentiment "sentiment" h entry in
  let sentiment_color := sentiment_color s in
  let? l := getitem link "link" h entry in
  let? t := getitem title "title" h entry in
  let? p := getitem published "published" h entry in
  let? s := getitem sentiment "sentiment" h entry in
  let? x := getitem subjectivity "subjectivity" h entry in
  Ok ("<li><a href='" +:+ l +:+ "' style='color:" +:+ sentiment_color
      +:+ "'>" +:+ t +:+ "</a> - " +:+ p +:+ " (Настроение: " +:+ s
      +:+ ", Субъективность: " +:+ format_2f x +:+ ")</li>").

Fixpoint dashboard_loop (h : heap) (data : list loc) (dashboard : string)
    : result string :=
  match data with
  | [] => Ok dashboard
  | entry :: rest =>
      let? item := dashboard_item h entry in
      dashboard_loop h rest (dashboard +:+ item)
  end.

Definition create_dashboard (h : heap) (data : list loc) : result string :=
  let? dashboard := dashboard_loop h data dashboard_header in
  Ok (dashboard +:+ dashboard_footer).

(** *** [main] *)

(** The locals of [main] that the report and the dashboard are made of. *)
Record main_locals := {
  m_unique_articles : list loc;
  m_analyzed_articles : list loc;
  m_filtered_vish : list loc;
  m_filtered_high_speed : list loc;
  m_filtered_rzd : list loc;
  m_final_articles : list loc;
  m_heap : heap
}.

(** Lines 148-168. *)
Definition main_collect (self : NewsParser) (net : network)
    : result main_locals :=
  let? '(vish_news, h) := fetch_vish_news (fetcher self) net [] in
  let? '(high_speed_news, h) := fetch_high_speed_railways (fetcher self) net h in
  let? '(russian_railways_news, h) := fetch_russian_railways (fetcher self) net h in
  let all_articles := vish_news ++ high_speed_news ++ russian_railways_news in
  let? unique_articles := unique_articles h all_articles in
  let? sorted_articles := filter_and_sort_articles h unique_articles in
  let? '(analyzed_articles, h) := analyze_sentiment self sorted_articles h in
  let? '(adjusted_articles, h) := adjust_subjectivity analyzed_articles h in
  let filtered_vish :=
    filter_articles_by_keywords h adjusted_articles keywords_vish in
  let filtered_high_speed :=
    filter_articles_by_keywords h adjusted_articles keywords_high_speed in
  let filtered_rzd :=
    filter_articles_by_keywords h adjusted_articles keywords_rzd in
  let final_articles := filtered_vish ++ filtered_high_speed ++ filtered_rzd in
  Ok {| m_unique_articles := unique_articles;
        m_analyzed_articles := analyzed_articles;
        m_filtered_vish := filtered_vish;
        m_filtered_high_speed := filtered_high_speed;
        m_filtered_rzd := filtered_rzd;
        m_final_articles := final_articles;
        m_heap := h |}.

(** The dict [result] of lines 171-178. *)
Definition report (m : main_locals) : pydict (list loc) :=
  [ ("unique_articles", m_unique_articles m);
    ("analyzed_articles", m_analyzed_articles m);
    ("filtered_vish", m_filtered_vish m);
    ("filtered_high_speed", m_filtered_high_speed m);
    ("filtered_rzd", m_filtered_rzd m);
    ("final_articles", m_final_articles m) ].

(** [main]: the files it leaves. *)
Definition main (self : NewsParser) (net : network) (fs : files)
    : result files :=
  let? m := main_collect self net in
  let fs := save_to_json (m_heap m) (report m) "all_articles.json" fs in
  let? dashboard_content := create_dashboard (m_heap m) (m_final_articles m) in
  Ok (save_dashboard dashboard_content "news_dashboard.html" fs).

End dashboard.

(** ** Notions used in the statements *)

Definition link_of (h : heap) (r : loc) : option string := link (deref h r).
Definition published_of (h : heap) (r : loc) : option string :=
  published (deref h r).
Definition sentiment_of (h : heap) (r : loc) : option string :=
  sentiment (deref h r).
Definition subjectivity_of (h : heap) (r : loc) : option float :=
  subjectivity (deref h r).

Definition has_link (h : heap) (r : loc) : Prop := is_Some (link_of h r).

(** Every value of the dict is filed under its own link. *)
Definition filed_by_link (h : heap) (d : pydict loc) : Prop :=
  Forall (λ kv, link_of h kv.2 = Some kv.1) d.

(** The elements of a list in the order of their first occurrence. *)
Fixpoint first_occurrences {A} `{EqDecision A} (l : list A) : list A :=
  match l with
  | [] => []
  | x :: l' => x :: filter (λ y, y ≠ x) (first_occurrences l')
  end.

(** [k] is a literal substring of [s]. *)
Definition substring_of (k s : string) : Prop :=
  ∃ pre post, s = pre +:+ k +:+ post.

(** Some keyword is a substring of the title or of the description, each
    being the empty string when the key is absent. *)
Definition mentions (h : heap) (keywords : list string) (r : loc) : Prop :=
  ∃ keyword, keyword ∈ keywords
    ∧ (substring_of keyword (get_or_empty title h r)
       ∨ substring_of keyword (get_or_empty description h r)).

(** [a] is published no earlier than [b], as strings compare. *)
Definition published_ge (h : heap) (a b : loc) : Prop :=
  ∃ pa pb, published_of h a = Some pa ∧ published_of h b = Some pb
    ∧ String.leb pb pa = true.

Definition has_published (h : heap) (r : loc) : Prop :=
  is_Some (published_of h r).

(** The order of the keys that [insert_desc] maintains. *)
Definition key_ge {V} (x y : string * V) : Prop := String.leb y.1 x.1 = true.

(** Every pair carries the [published] string of its article. *)
Definition keyed_by_published (h : heap) (ks : list (string * loc)) : Prop :=
  Forall (λ kv, published_of h kv.2 = Some kv.1) ks.

Definition has_title (h : heap) (r : loc) : Prop := is_Some (title (deref h r)).
Definition has_sentiment (h : heap) (r : loc) : Prop :=
  is_Some (sentiment_of h r).

(** What the body of the loop of [analyze_sentiment] makes of a dict. *)
Definition analyzed (self : NewsParser) (a : article) : article :=
  match title a with
  | Some t =>
      let result := sentiment_model self t in
      set_subjectivity (score result) (set_sentiment (label result) a)
  | None => a
  end.

(** What the body of the loop of [adjust_subjectivity] makes of a dict. *)
Definition adjusted (a : article) : article :=
  if bool_decide (sentiment a = Some "NEUTRAL")
  then set_subjectivity float_0_1 a
  else a.

(** A dict as the list comprehension of [fetch_news] makes it. *)
Definition fresh (a : article) : Prop :=
  is_Some (title a) ∧ is_Some (link a) ∧ is_Some (published a).

(** The three fetches of [main] return: [all_articles] is their
    concatenation and [h] the heap they leave. *)
Definition fetches (self : NewsParser) (net : network) (h : heap)
    (all_articles : list loc) : Prop :=
  ∃ vish_news h1 high_speed_news h2 russian_railways_news,
    fetch_vish_news (fetcher self) net [] = Ok (vish_news, h1)
    ∧ fetch_high_speed_railways (fetcher self) net h1 = Ok (high_speed_news, h2)
    ∧ fetch_russian_railways (fetcher self) net h2 = Ok (russian_railways_news, h)
    ∧ all_articles = vish_news ++ high_speed_news ++ russian_railways_news.


(** The strings of a list, one after the other. *)
Definition join_strings (l : list string) : string :=
  foldr String.append "" l.

(** A JSON object with a member of the given name. *)
Definition has_member (key : string) (j : json) : Prop :=
  match j with
  | JObject members => key ∈ members.*1
  | _ => False
  end.

(** ** Example data *)

Module Examples.
Definition a_first : article :=
  Article (Some "Old title") (Some "A") (Some "2024-01-01T00:00:00Z")
    None None None.
Definition b_only : article :=
  Article (Some "РЖД строит ВСМ") (Some "B") (Some "2024-03-01T00:00:00Z")
    None None None.
Definition a_last : article :=
  Article (Some "New title") (Some "A") (Some "2024-02-01T00:00:00Z")
    None None None.

(** Three fetched articles, links A, B, A. *)
Definition fetched : heap := [a_first; b_only; a_last].

(** Two scored articles: a neutral one with confidence 0.87 and a positive
    one with confidence 0.5. *)
Definition scored : heap :=
  [ set_subjectivity 0x1.bd70a3d70a3d7p-1%float (set_sentiment "NEUTRAL" a_first);
    set_subjectivity 0.5%float (set_sentiment "POSITIVE" b_only) ].

(** An endpoint that cannot be reached. *)
Definition unreachable : network := λ _ _ _, ConnectionFailed.

(** An endpoint that answers 503 three times and then 200 with two
    articles. *)
Definition unavailable : Response :=
  {| status_code := 503; text := "Service Unavailable"; parsed := None;
     retry_after := false |}.

Definition found_body : payload :=
  {| articles := Some
       [ {| raw_title := title a_first; raw_url := link a_first;
            raw_publishedAt := published a_first |};
         {| raw_title := title b_only; raw_url := link b_only;
            raw_publishedAt := published b_only |} ] |}.

Definition found : Response :=
  {| status_code := 200; text := ""; parsed := Some found_body;
     retry_after := false |}.

Definition flaky : network :=
  λ _ _ n, if n <? 3 then Answered unavailable else Answered found.

(** A classifier that finds titles about the high-speed lines neutral. *)
Definition classifier (t : string) : classification :=
  if str_in "ВСМ" t
  then {| label := "NEUTRAL"; score := 0x1.bd70a3d70a3d7p-1%float |}
  else {| label := "POSITIVE"; score := 0.5%float |}.

Definition parser : NewsParser :=
  {| fetcher := NewsFetcher_init "key"; sentiment_model := classifier |}.

(** The rendering of the scores of the examples with two decimals. *)
Definition two_decimals (x : float) : string :=
  if PrimFloat.eqb x 0.5%float then "0.50"
  else if PrimFloat.eqb x float_0_1 then "0.10"
  else "0.87".

(** The heap that the three fetches leave at the endpoint [flaky]. *)
Definition fetched_thrice : heap :=
  [a_first; b_only; a_first; b_only; a_first; b_only].

(** An endpoint that answers 404. *)
Definition not_found : network :=
  λ _ _ _, Answered {| status_code := 404; text := "Not Found"; parsed := None;
     retry_after := false |}.
End Examples.

(** ** Further notions *)

(** A dict exactly as the list comprehension of [fetch_news] leaves it:
    [title], [link] and [published], and no other key. *)
Definition just_fetched (a : article) : Prop :=
  fresh a ∧ description a = None ∧ sentiment a = None ∧ subjectivity a = None.

(** An attempt that the adapter answers with another attempt. *)
Definition retried (retries : Retry) (a : attempt) : Prop :=
  a = ConnectionFailed
  ∨ ∃ r, a = Answered r ∧ status_code r ∈ status_forcelist retries.

(** A response that the adapter hands back however many retries remain:
    its status is not in the force list, and it is not one of the statuses
    that a [Retry-After] header makes it send again. *)
Definition handed_back (retries : Retry) (response : Response) : Prop :=
(status_code response ∉ status_forcelist retries)
  ∧ (retry_after response = true →
     status_code response ∉ RETRY_AFTER_STATUS_CODES).

(** [item] is the list item that the dashboard shows for the entry [r]: a
    link to the article, coloured by its sentiment, with its title, its date,
    its sentiment and its subjectivity with two decimals. *)
Definition list_item_of (format_2f : float → string) (h : heap) (r : loc)
    (item : string) : Prop :=
  ∃ l t p s x,
    link_of h r = Some l ∧ title (deref h r) = Some t
    ∧ published_of h r = Some p ∧ sentiment_of h r = Some s
    ∧ subjectivity_of h r = Some x
    ∧ item =
      "<li><a href='" +:+ l +:+ "' style='color:"
      +:+ (if decide (s = "POSITIVE") then "green"
           else if decide (s = "NEGATIVE") then "red" else "gray")
      +:+ "'>" +:+ t +:+ "</a> - " +:+ p +:+ " (Настроение: " +:+ s
      +:+ ", Субъективность: " +:+ format_2f x +:+ ")</li>".

(** An attempt that the adapter answers with another attempt while retries
    remain: one that is [retried], or an answer 413, 429 or 503 that carries
    [Retry-After]. *)
Definition resent (retries : Retry) (a : attempt) : Prop :=
  retried retries a
  ∨ ∃ r, a = Answered r ∧ retry_after r = true
         ∧ status_code r ∈ RETRY_AFTER_STATUS_CODES.

(** Some keyword is a substring of the title (the empty string when the key
    is absent). *)
Definition title_mentions (h : heap) (keywords : list string) (r : loc)
    : Prop :=
  ∃ keyword, keyword ∈ keywords
    ∧ substring_of keyword (get_or_empty title h r).

(** An entry with the five keys that [create_dashboard] reads. *)
Definition renderable (h : heap) (r : loc) : Prop :=
  is_Some (title (deref h r)) ∧ is_Some (link_of h r)
  ∧ is_Some (published_of h r) ∧ is_Some (sentiment_of h r)
  ∧ is_Some (subjectivity_of h r).

(** The characters that [quote] writes: the kept ones, [%] and the digits of
    [%XX]. *)
Definition url_char (c : ascii) : Prop :=
  is_safe c = true ∨ c = "%"%char
  ∨ c ∈ list_ascii_of_string "0123456789ABCDEF".

(** A raw article with the three members that [fetch_news] reads. *)
Definition complete_raw (a : raw_article) : Prop :=
  is_Some (raw_title a) ∧ is_Some (raw_url a) ∧ is_Some (raw_publishedAt a).

(** The queries of the three fetches of [main]. *)
Definition queries : list string :=
  ["Высшая инженерная школа"; "ВСМ"; "РЖД Российские Железные дороги"].

(** *** [read_json] *)

Inductive read_error :=
| FileNotFoundError
| NotJSON.

Inductive read_result :=
| Read (data : json)
| ReadRaise (e : read_error).

Section reading.
(** [json.loads] on the text of a file that [json.dump] did not write. *)
Variable json_loads : string → option json.

(** [read_json]: the document of [results.json].  A file that [json.dump]
    wrote reads back as the tree it was given. *)
Definition read_json (fs : files) : read_result :=
  match fs !! "results.json" with
  | None => ReadRaise FileNotFoundError
  | Some (JsonFile doc) => Read doc
  | Some (TextFile content) =>
      match json_loads content with
      | Some doc => Read doc
      | None => ReadRaise NotJSON
      end
  end.
End reading.

(** *** More example data *)

Module Cases.
(** An endpoint that answers 503 to every attempt. *)
Definition always_unavailable : network :=
  λ _ _ _, Answered Examples.unavailable.

(** An endpoint whose connection fails twice, that answers 502 and 503 and
    then 200. *)
Definition shaky : network :=
  λ _ _ n,
    if n <? 2 then ConnectionFailed
    else if n <? 3
      then Answered {| status_code := 502; text := "Bad Gateway"; parsed := None;
     retry_after := false |}
    else if n <? 4 then Answered Examples.unavailable
    else Answered Examples.found.

(** An answer 429 that asks to come back later. *)
Definition throttled : Response :=
  {| status_code := 429; text := "Too Many Requests"; parsed := None;
     retry_after := true |}.

(** An endpoint that answers 429 with [Retry-After] twice and then 200. *)
Definition throttled_twice : network :=
  λ _ _ n, if n <? 2 then Answered throttled else Answered Examples.found.

(** An endpoint that answers 429 with [Retry-After] to every attempt. *)
Definition always_throttled : network := λ _ _ _, Answered throttled.

(** An endpoint that answers 200 with an object without [articles]. *)
Definition no_articles : network :=
  λ _ _ _, Answered {| status_code := 200; text := "{}";
                       parsed := Some {| articles := None |};
                       retry_after := false |}.

(** An endpoint whose second article has no [url]. *)
Definition incomplete_body : payload :=
  {| articles := Some
       [ {| raw_title := Some "Old title"; raw_url := Some "A";
            raw_publishedAt := Some "2024-01-01T00:00:00Z" |};
         {| raw_title := Some "No address"; raw_url := None;
            raw_publishedAt := Some "2024-01-02T00:00:00Z" |} ] |}.

Definition incomplete : network :=
  λ _ _ _, Answered {| status_code := 200; text := "";
                       parsed := Some incomplete_body;
                       retry_after := false |}.

(** A heap with an article that has no [link], one without [published] and
    one without [title]. *)
Definition no_link : article :=
  Article (Some "No link") None (Some "2024-01-05T00:00:00Z") None None None.
Definition no_published : article :=
  Article (Some "No date") (Some "C") None None None None.
Definition no_title : article :=
  Article None (Some "D") (Some "2024-01-06T00:00:00Z") None None None.

Definition partial : heap :=
  [Examples.a_first; no_link; no_published; no_title].

(** Two articles published at the same time, between two others. *)
Definition same_time : article :=
  Article (Some "Same time") (Some "E") (Some "2024-02-01T00:00:00Z")
    None None None.

Definition ties : heap :=
  [Examples.a_first; Examples.a_last; same_time; Examples.b_only].

(** An article with a description that mentions the railways. *)
Definition described : article :=
  Article (Some "Итоги года") (Some "F") (Some "2024-04-01T00:00:00Z")
    (Some "РЖД подвели итоги") None None.

Definition with_description : heap := [Examples.b_only; described].

(** A parsing of texts that accepts none. *)
Definition no_json (s : string) : option json := None.

(** A directory that holds an older [results.json]. *)
Definition older : files :=
  {[ "results.json" := JsonFile (JArray [JString "older"]) ]}.
End Cases.

(** * Properties *)

(** ** Insertion-ordered dicts *)

Lemma dict_keys_setitem {V} k (v : V) d :
  dict_keys (dict_setitem k v d) =
  if decide (k ∈ dict_keys d) then dict_keys d else dict_keys d ++ [k].
Proof.
  unfold dict_keys. induction d as [|[k' v'] d IH]; csimpl.
  - done.
  - destruct (String.eqb_spec k' k) as [->|Hne]; csimpl.
    + rewrite decide_True by left. done.
    + rewrite IH. destruct (decide (k ∈ d.*1)) as [Hin|Hin].
      * rewrite decide_True by (by right). done.
      * rewrite decide_False; [done|].
        intros [?|?]%elem_of_cons; [congruence | done].
Qed.

Lemma NoDup_dict_keys_setitem {V} k (v : V) d :
  NoDup (dict_keys d) → NoDup (dict_keys (dict_setitem k v d)).
Proof.
  intros Hnd. rewrite dict_keys_setitem. case_decide as Hin; [done|].
  apply NoDup_app. split_and!; [done | | apply NoDup_singleton].
  intros x Hx ->%list_elem_of_singleton. done.
Qed.

Lemma elem_of_dict_setitem {V} k (v : V) d k0 v0 :
  NoDup (dict_keys d) →
  (k0, v0) ∈ dict_setitem k v d →
  (k0 = k ∧ v0 = v) ∨ (k0 ≠ k ∧ (k0, v0) ∈ d).
Proof.
  unfold dict_keys. induction d as [|[k' v'] d IH]; csimpl; intros Hnd.
  - intros [= -> ->]%list_elem_of_singleton. by left.
  - apply NoDup_cons in Hnd as [Hk' Hnd].
    destruct (String.eqb_spec k' k) as [->|Hne].
    + intros [[= -> ->]|Hin]%elem_of_cons; [by left|].
      right. split; [|by right].
      intros ->. apply Hk'. apply list_elem_of_fmap. by exists (k, v0).
    + intros [[= -> ->]|Hin]%elem_of_cons.
      * right. split; [done | by left].
      * destruct (IH Hnd Hin) as [?|[? ?]]; [by left|].
        right. split; [done | by right].
Qed.

(** ** First occurrences *)

Lemma elem_of_first_occurrences {A} `{EqDecision A} (l : list A) x :
  x ∈ first_occurrences l ↔ x ∈ l.
Proof.
  induction l as [|y l IH]; simpl; [done|].
  rewrite !elem_of_cons, list_elem_of_filter, IH.
  destruct (decide (x = y)); naive_solver.
Qed.

Lemma NoDup_first_occurrences {A} `{EqDecision A} (l : list A) :
  NoDup (first_occurrences l).
Proof.
  induction l as [|y l IH]; simpl; [constructor|].
  apply NoDup_cons. split; [|by apply NoDup_filter].
  rewrite list_elem_of_filter. naive_solver.
Qed.

Lemma filter_not_elem_of_nil {A} `{EqDecision A} (l : list A) :
  filter (λ y, y ∉ []) l = l.
Proof.
  induction l as [|x l IH]; [done|].
  rewrite filter_cons_True by apply not_elem_of_nil. by rewrite IH.
Qed.

Lemma filter_not_elem_of_snoc {A} `{EqDecision A} (ks l : list A) k :
  filter (λ y, y ∉ ks ++ [k]) l = filter (λ y, y ∉ ks) (filter (λ y, y ≠ k) l).
Proof.
  rewrite list_filter_filter. apply list_filter_iff. intros y.
  rewrite elem_of_app, list_elem_of_singleton. naive_solver.
Qed.

Lemma filter_not_elem_of_absorb {A} `{EqDecision A} (ks l : list A) k :
  k ∈ ks →
  filter (λ y, y ∉ ks) (filter (λ y, y ≠ k) l) = filter (λ y, y ∉ ks) l.
Proof.
  intros Hk. rewrite list_filter_filter. apply list_filter_iff. intros y.
  naive_solver.
Qed.

(** ** Deduplication by link *)

Lemma dict_by_link_cons h r rs d :
  dict_by_link h (r :: rs) d =
  match link_of h r with
  | Some k => dict_by_link h rs (dict_setitem k r d)
  | None => Raise (KeyError "link")
  end.
Proof. simpl. unfold getitem, link_of. by destruct (link (deref h r)). Qed.

Lemma dict_by_link_total h rs d :
  Forall (has_link h) rs → ∃ d', dict_by_link h rs d = Ok d'.
Proof.
  intros Hall. revert d. induction Hall as [|r rs [k Hk] _ IH]; intros d.
  - by exists d.
  - rewrite dict_by_link_cons, Hk. apply IH.
Qed.

Lemma dict_by_link_missing h pre r post d :
  Forall (has_link h) pre → link_of h r = None →
  dict_by_link h (pre ++ r :: post) d = Raise (KeyError "link").
Proof.
  intros Hall Hr. revert d. induction Hall as [|r' rs [k Hk] _ IH]; intros d.
  - simpl app. by rewrite dict_by_link_cons, Hr.
  - simpl app. rewrite dict_by_link_cons, Hk. apply IH.
Qed.

Lemma filed_by_link_setitem h k r d :
  link_of h r = Some k → filed_by_link h d →
  filed_by_link h (dict_setitem k r d).
Proof.
  intros Hk. unfold filed_by_link.
  induction d as [|[k' v'] d IH]; simpl; intros Hd.
  - by constructor.
  - apply Forall_cons in Hd as [Hhd Htl].
    destruct (String.eqb_spec k' k) as [->|Hne]; constructor; auto.
Qed.

Lemma dict_by_link_filed h rs d d' :
  dict_by_link h rs d = Ok d' → filed_by_link h d → filed_by_link h d'.
Proof.
  revert d. induction rs as [|r rs IH]; intros d.
  - by intros [= ->].
  - rewrite dict_by_link_cons. destruct (link_of h r) as [k|] eqn:Hk; [|done].
    intros Hrun Hd. eapply IH; [done|]. by apply filed_by_link_setitem.
Qed.

Lemma dict_by_link_NoDup h rs d d' :
  dict_by_link h rs d = Ok d' → NoDup (dict_keys d) → NoDup (dict_keys d').
Proof.
  revert d. induction rs as [|r rs IH]; intros d.
  - by intros [= ->].
  - rewrite dict_by_link_cons. destruct (link_of h r) as [k|] eqn:Hk; [|done].
    intros Hrun Hd. eapply IH; [done|]. by apply NoDup_dict_keys_setitem.
Qed.

Lemma dict_by_link_keys h rs d d' :
  dict_by_link h rs d = Ok d' →
  Some <$> dict_keys d' =
  (Some <$> dict_keys d) ++
  filter (λ l, l ∉ Some <$> dict_keys d) (first_occurrences (link_of h <$> rs)).
Proof.
  revert d. induction rs as [|r rs IH]; intros d.
  - intros [= ->]. simpl. by rewrite filter_nil, app_nil_r.
  - rewrite dict_by_link_cons. destruct (link_of h r) as [k|] eqn:Hk; [|done].
    intros Hrun. rewrite (IH _ Hrun), dict_keys_setitem. csimpl. rewrite Hk.
    destruct (decide (k ∈ dict_keys d)) as [Hin|Hin].
    + rewrite filter_cons_False by (intros Hn; apply Hn, list_elem_of_fmap; eauto).
      rewrite filter_not_elem_of_absorb; [done|].
      apply list_elem_of_fmap; eauto.
    + rewrite filter_cons_True.
      2:{ intros (k' & [= <-] & Hk')%list_elem_of_fmap. done. }
      rewrite fmap_app, <-(assoc_L (++)). csimpl.
      by rewrite filter_not_elem_of_snoc.
Qed.

Lemma dict_by_link_last h rs d d' k v :
  NoDup (dict_keys d) → dict_by_link h rs d = Ok d' → (k, v) ∈ d' →
  (∃ pre post, rs = pre ++ v :: post ∧ link_of h v = Some k
     ∧ Forall (λ r, link_of h r ≠ Some k) post)
  ∨ ((k, v) ∈ d ∧ Forall (λ r, link_of h r ≠ Some k) rs).
Proof.
  revert d. induction rs as [|r rs IH]; intros d Hnd.
  - intros [= ->] Hin. right. by split.
  - rewrite dict_by_link_cons. destruct (link_of h r) as [k'|] eqn:Hk; [|done].
    intros Hrun Hin.
    destruct (IH _ (NoDup_dict_keys_setitem k' r d Hnd) Hrun Hin)
      as [(pre & post & -> & Hv & Hpost)|[Hin' Hrs]].
    + left. by exists (r :: pre), post.
    + apply elem_of_dict_setitem in Hin'; [|done].
      destruct Hin' as [[-> ->]|[Hne Hd]].
      * left. by exists [], rs.
      * right. split; [done|]. constructor; [|done]. rewrite Hk. congruence.
Qed.

Lemma dict_values_links h d :
  filed_by_link h d → link_of h <$> dict_values d = Some <$> dict_keys d.
Proof.
  unfold filed_by_link, dict_values, dict_keys.
  induction 1 as [|[k v] d Hkv _ IH]; csimpl; [done|].
  simpl in Hkv. by rewrite Hkv, IH.
Qed.

(** The dict comprehension returns for a list of articles that all have a
    link, and the links of its values are the links of the input in the order
    of their first occurrence. *)
Lemma unique_articles_links h rs :
  Forall (has_link h) rs →
  ∃ us, unique_articles h rs = Ok us
    ∧ link_of h <$> us = first_occurrences (link_of h <$> rs).
Proof.
  intros Hall. destruct (dict_by_link_total h rs [] Hall) as [d Hd].
  exists (dict_values d). unfold unique_articles. rewrite Hd. simpl.
  split; [done|].
  rewrite dict_values_links
    by (eapply dict_by_link_filed; [done | constructor]).
  rewrite (dict_by_link_keys _ _ _ _ Hd). simpl.
  apply filter_not_elem_of_nil.
Qed.

(** Every value of the dict is the last article of the input with its
    link. *)
Lemma unique_articles_last h rs us u :
  unique_articles h rs = Ok us → u ∈ us →
  ∃ pre post, rs = pre ++ u :: post
    ∧ Forall (λ r, link_of h r ≠ link_of h u) post.
Proof.
  unfold unique_articles.
  destruct (dict_by_link h rs []) as [d|] eqn:Hd; [|done]. simpl.
  intros [= <-] ([k v] & -> & Hin)%list_elem_of_fmap. simpl.
  destruct (dict_by_link_last h rs [] d k v (NoDup_nil_2) Hd Hin)
    as [(pre & post & -> & Hv & Hpost)|[[]%elem_of_nil _]].
  exists pre, post. by rewrite Hv.
Qed.

(** C1. For every list of articles that have a link, the dict comprehension
    returns, and what it returns holds exactly one article per distinct link
    of the input: no link twice, every link of the input once, and for each
    link the article that comes last in the input with that link. *)
Theorem unique_articles_last_wins h all_articles :
  Forall (has_link h) all_articles →
  ∃ us, unique_articles h all_articles = Ok us
    ∧ NoDup (link_of h <$> us)
    ∧ (∀ r, r ∈ all_articles → ∃ u, u ∈ us ∧ link_of h u = link_of h r)
    ∧ (∀ u, u ∈ us →
         ∃ pre post, all_articles = pre ++ u :: post
           ∧ Forall (λ r, link_of h r ≠ link_of h u) post).
Proof.
  intros Hall.
  destruct (unique_articles_links h all_articles Hall) as (us & Hus & Hks).
  exists us. split_and!; [done | | |].
  - rewrite Hks. apply NoDup_first_occurrences.
  - intros r Hr.
    assert (link_of h r ∈ link_of h <$> us) as (u & Hu & Hin)%list_elem_of_fmap.
    { rewrite Hks, elem_of_first_occurrences. by apply list_elem_of_fmap_2. }
    by exists u.
  - intros u Hu. by apply (unique_articles_last h all_articles us).
Qed.

Lemma unique_articles_last_wins_witness :
  ∃ us, unique_articles Examples.fetched [0; 1; 2] = Ok us
    ∧ NoDup (link_of Examples.fetched <$> us)
    ∧ (∀ r, r ∈ [0; 1; 2] →
         ∃ u, u ∈ us ∧ link_of Examples.fetched u = link_of Examples.fetched r)
    ∧ (∀ u, u ∈ us →
         ∃ pre post, [0; 1; 2] = pre ++ u :: post
           ∧ Forall (λ r, link_of Examples.fetched r ≠ link_of Examples.fetched u)
               post).
Proof.
  apply (unique_articles_last_wins Examples.fetched [0; 1; 2]).
  repeat constructor; by eexists.
Defined.

(** A list with an article that has no link makes the comprehension raise. *)
Lemma unique_articles_missing_link h pre r post :
  Forall (has_link h) pre → link_of h r = None →
  unique_articles h (pre ++ r :: post) = Raise (KeyError "link").
Proof.
  intros Hpre Hr. unfold unique_articles.
  by rewrite (dict_by_link_missing h pre r post [] Hpre Hr).
Qed.

(** C8. The deduplicated sequence lists the links in the order of their
    first occurrence in the input, while the article kept for a link is the
    last one of the input with that link. *)
Theorem unique_articles_first_occurrence_order h all_articles :
  Forall (has_link h) all_articles →
  ∃ us, unique_articles h all_articles = Ok us
    ∧ link_of h <$> us = first_occurrences (link_of h <$> all_articles)
    ∧ (∀ u, u ∈ us →
         ∃ pre post, all_articles = pre ++ u :: post
           ∧ Forall (λ r, link_of h r ≠ link_of h u) post).
Proof.
  intros Hall.
  destruct (unique_articles_links h all_articles Hall) as (us & Hus & Hks).
  exists us. split_and!; [done | done |].
  intros u Hu. by apply (unique_articles_last h all_articles us).
Qed.

Lemma unique_articles_first_occurrence_order_witness :
  ∃ us, unique_articles Examples.fetched [0; 1; 2] = Ok us
    ∧ link_of Examples.fetched <$> us =
      first_occurrences (link_of Examples.fetched <$> [0; 1; 2])
    ∧ (∀ u, u ∈ us →
         ∃ pre post, [0; 1; 2] = pre ++ u :: post
           ∧ Forall (λ r, link_of Examples.fetched r ≠ link_of Examples.fetched u)
               post).
Proof.
  apply (unique_articles_first_occurrence_order Examples.fetched [0; 1; 2]).
  repeat constructor; by eexists.
Defined.

(** Links A, B, A: the last A is kept, in the place of the first. *)
Example unique_articles_ABA :
  unique_articles Examples.fetched [0; 1; 2] = Ok [2; 1].
Proof. reflexivity. Qed.

(** ** Sorting *)

Lemma string_compare_refl s : String.compare s s = Eq.
Proof. by apply (String_as_OT.cmp_eq s s). Qed.

Lemma string_leb_refl s : String.leb s s = true.
Proof. unfold String.leb. by rewrite string_compare_refl. Qed.

Lemma string_leb_iff a b :
  String.leb a b = true ↔ a = b ∨ String_as_OT.lt a b.
Proof.
  unfold String.leb. destruct (String.compare a b) eqn:Hc.
  - apply String.compare_eq_iff in Hc. naive_solver.
  - apply String_as_OT.cmp_lt in Hc. naive_solver.
  - split; [done|]. intros [->|Hlt].
    + by rewrite string_compare_refl in Hc.
    + apply String_as_OT.cmp_lt in Hlt. unfold String_as_OT.cmp in Hlt.
      congruence.
Qed.

Lemma string_leb_trans a b c :
  String.leb a b = true → String.leb b c = true → String.leb a c = true.
Proof.
  rewrite !string_leb_iff. intros [->|Hab] [->|Hbc]; auto.
  right. by eapply String_as_OT.lt_trans.
Qed.

Lemma string_ltb_leb a b : String.ltb a b = true → String.leb a b = true.
Proof.
  unfold String.ltb, String.leb. by destruct (String.compare a b).
Qed.

Lemma string_ltb_false_leb a b :
  String.ltb a b = false → String.leb b a = true.
Proof.
  unfold String.ltb, String.leb. rewrite (String.compare_antisym b a).
  by destruct (String.compare a b).
Qed.

Lemma key_ge_trans {V} (x y z : string * V) :
  key_ge x y → key_ge y z → key_ge x z.
Proof. unfold key_ge. intros Hxy Hyz. by eapply string_leb_trans. Qed.

Lemma insert_desc_perm {V} (x : string * V) l : insert_desc x l ≡ₚ x :: l.
Proof.
  induction l as [|y l IH]; simpl; [done|].
  destruct (String.ltb x.1 y.1); [|done].
  rewrite IH. apply Permutation_swap.
Qed.

Lemma insert_desc_sorted {V} (x : string * V) l :
  StronglySorted key_ge l → StronglySorted key_ge (insert_desc x l).
Proof.
  induction 1 as [|y l Hl IH Hy]; simpl.
  - repeat constructor.
  - destruct (String.ltb x.1 y.1) eqn:Hlt.
    + constructor; [done|].
      rewrite insert_desc_perm. constructor; [|done].
      by apply string_ltb_leb.
    + assert (key_ge x y) as Hxy by by apply string_ltb_false_leb.
      constructor; [by constructor|]. constructor; [done|].
      eapply Forall_impl; [done|]. intros z Hz. by apply (key_ge_trans x y z).
Qed.

Lemma foldr_insert_desc_perm {V} (l : list (string * V)) :
  foldr insert_desc [] l ≡ₚ l.
Proof.
  induction l as [|x l IH]; simpl; [done|]. by rewrite insert_desc_perm, IH.
Qed.

Lemma foldr_insert_desc_sorted {V} (l : list (string * V)) :
  StronglySorted key_ge (foldr insert_desc [] l).
Proof.
  induction l as [|x l IH]; simpl; [constructor|]. by apply insert_desc_sorted.
Qed.

Lemma published_keys_spec h articles :
  Forall (has_published h) articles →
  ∃ ks, published_keys h articles = Ok ks ∧ ks.*2 = articles
    ∧ keyed_by_published h ks.
Proof.
  induction 1 as [|x rest [k Hk] _ (ks & Hks & Hsnd & Hkeyed)].
  - exists []. by split_and!; [| |constructor].
  - exists ((k, x) :: ks). simpl. unfold getitem.
    unfold published_of in Hk. rewrite Hk. simpl. rewrite Hks. simpl.
    split_and!; [done | by rewrite <-Hsnd | by constructor].
Qed.

Lemma published_keys_missing h pre x post :
  Forall (has_published h) pre → published_of h x = None →
  published_keys h (pre ++ x :: post) = Raise (KeyError "published").
Proof.
  intros Hpre Hx. induction Hpre as [|y rest [k Hk] _ IH]; simpl; unfold getitem.
  - unfold published_of in Hx. by rewrite Hx.
  - unfold published_of in Hk. rewrite Hk. simpl. by rewrite IH.
Qed.

Lemma keyed_sorted_published_ge h ks :
  keyed_by_published h ks → StronglySorted key_ge ks →
  StronglySorted (published_ge h) ks.*2.
Proof.
  intros Hkeyed Hsorted. induction Hsorted as [|x l Hl IH Hx]; csimpl.
  - constructor.
  - apply Forall_cons in Hkeyed as [Hkx Hkl]. constructor; [by apply IH|].
    apply Forall_fmap. apply Forall_forall. intros y Hy. simpl.
    exists x.1, y.1. split_and!; [done | |].
    + by apply (proj1 (Forall_forall _ _) Hkl).
    + by apply (proj1 (Forall_forall _ _) Hx).
Qed.

Lemma filter_and_sort_articles_keyed h articles :
  Forall (has_published h) articles →
  ∃ ks, filter_and_sort_articles h articles = Ok (sorted_reverse ks)
    ∧ ks.*2 = articles ∧ keyed_by_published h ks.
Proof.
  intros Hall.
  destruct (published_keys_spec h articles Hall) as (ks & Hks & Hsnd & Hkeyed).
  exists ks. unfold filter_and_sort_articles. by rewrite Hks.
Qed.

Lemma sorted_reverse_perm {V} (ks : list (string * V)) :
  sorted_reverse ks ≡ₚ ks.*2.
Proof. unfold sorted_reverse. by rewrite foldr_insert_desc_perm. Qed.

(** C2. For every list of articles that have a [published] string, the sort
    step returns a permutation of its input in which every article is
    published no earlier, as strings compare, than every article after it. *)
Theorem filter_and_sort_articles_sorted_permutation h articles :
  Forall (has_published h) articles →
  ∃ sorted_articles,
    filter_and_sort_articles h articles = Ok sorted_articles
    ∧ sorted_articles ≡ₚ articles
    ∧ StronglySorted (published_ge h) sorted_articles.
Proof.
  intros Hall.
  destruct (filter_and_sort_articles_keyed h articles Hall)
    as (ks & Hsorted & Hsnd & Hkeyed).
  exists (sorted_reverse ks). split; [done|]. split.
  - by rewrite sorted_reverse_perm, Hsnd.
  - apply keyed_sorted_published_ge; [|apply foldr_insert_desc_sorted].
    unfold keyed_by_published. by rewrite foldr_insert_desc_perm.
Qed.

Lemma filter_and_sort_articles_sorted_permutation_witness :
  ∃ sorted_articles,
    filter_and_sort_articles Examples.fetched [0; 1; 2] = Ok sorted_articles
    ∧ sorted_articles ≡ₚ [0; 1; 2]
    ∧ StronglySorted (published_ge Examples.fetched) sorted_articles.
Proof.
  apply (filter_and_sort_articles_sorted_permutation Examples.fetched [0; 1; 2]).
  repeat constructor; by eexists.
Defined.

(** The March article comes before the February and the January one. *)
Example filter_and_sort_articles_march_first :
  filter_and_sort_articles Examples.fetched [0; 1; 2] = Ok [1; 2; 0].
Proof. reflexivity. Qed.

(** ** The heap *)

Lemma deref_allocated h r : deref h r ≠ empty_article → r < length h.
Proof.
  unfold deref. rewrite list_lookup_total_alt. intros Hne.
  destruct (h !! r) eqn:Hr; [by eapply lookup_lt_Some | done].
Qed.

Lemma deref_alter f a h r :
  a < length h →
  deref (alter f a h) r = if decide (r = a) then f (deref h a) else deref h r.
Proof.
  intros Hlt. unfold deref. case_decide as Hr.
  - subst r. by apply list_lookup_total_alter_eq.
  - by apply list_lookup_total_alter_ne.
Qed.

(** ** Sentiment and subjectivity *)

Lemma analyzed_idemp self a : analyzed self (analyzed self a) = analyzed self a.
Proof. unfold analyzed. destruct a as [[t|] ? ? ? ? ?]; simpl; done. Qed.

Lemma adjusted_idemp a : adjusted (adjusted a) = adjusted a.
Proof.
  unfold adjusted.
  destruct (bool_decide (sentiment a = Some "NEUTRAL")) eqn:Hs.
  - apply bool_decide_eq_true in Hs. by rewrite bool_decide_eq_true_2.
  - by rewrite Hs.
Qed.

Lemma analyze_article_spec self article h :
  has_title h article →
  ∃ h', analyze_article self article h = Ok h'
    ∧ length h' = length h
    ∧ ∀ r, deref h' r =
        if decide (r = article) then analyzed self (deref h r) else deref h r.
Proof.
  intros [t Ht]. unfold analyze_article, getitem. rewrite Ht. simpl.
  assert (article < length h) as Hlt.
  { apply deref_allocated. intros Heq. by rewrite Heq in Ht. }
  eexists. split; [done|]. split; [by rewrite !length_alter|].
  intros r. rewrite !deref_alter by (by rewrite ?length_alter).
  destruct (decide (r = article)) as [->|Hr]; [|done].
  rewrite decide_True by done. unfold analyzed. by rewrite Ht.
Qed.

Lemma analyze_loop_spec self articles h :
  Forall (has_title h) articles →
  ∃ h', analyze_loop self articles h = Ok h'
    ∧ length h' = length h
    ∧ ∀ r, deref h' r =
        if decide (r ∈ articles) then analyzed self (deref h r) else deref h r.
Proof.
  revert h. induction articles as [|a rest IH]; intros h Hall.
  - exists h. split_and!; [done..|]. intros r.
    by rewrite decide_False by apply not_elem_of_nil.
  - apply Forall_cons in Hall as [Ha Hrest].
    destruct (analyze_article_spec self a h Ha) as (h1 & Hh1 & Hlen1 & Hd1).
    destruct (IH h1) as (h' & Hh' & Hlen & Hd).
    { eapply Forall_impl; [done|]. intros r [t Ht]. unfold has_title.
      rewrite Hd1. case_decide; [|by eexists]. subst r.
      unfold analyzed. rewrite Ht. by eexists. }
    exists h'. simpl. rewrite Hh1. simpl. split; [done|].
    split; [congruence|]. intros r. rewrite Hd, !Hd1.
    destruct (decide (r ∈ a :: rest)) as [Hin|Hin];
      destruct (decide (r ∈ rest)); destruct (decide (r = a)); subst;
      try done; try apply analyzed_idemp; exfalso; set_solver.
Qed.

Lemma analyze_loop_missing_title self pre a post h :
  Forall (has_title h) pre → title (deref h a) = None →
  analyze_loop self (pre ++ a :: post) h = Raise (KeyError "title").
Proof.
  revert h. induction pre as [|b pre IH]; intros h Hpre Ha; simpl.
  - unfold analyze_article, getitem. by rewrite Ha.
  - apply Forall_cons in Hpre as [Hb Hpre].
    destruct (analyze_article_spec self b h Hb) as (h1 & -> & _ & Hd1). simpl.
    apply IH.
    + eapply Forall_impl; [done|]. intros r [t Ht]. unfold has_title.
      rewrite Hd1. case_decide; [|by eexists]. subst r.
      unfold analyzed. rewrite Ht. by eexists.
    + rewrite Hd1. case_decide; [|done]. subst a.
      destruct Hb as [t Ht]. congruence.
Qed.

Lemma adjust_article_spec article h :
  has_sentiment h article →
  ∃ h', adjust_article article h = Ok h'
    ∧ length h' = length h
    ∧ ∀ r, deref h' r =
        if decide (r = article) then adjusted (deref h r) else deref h r.
Proof.
  intros [s Hs]. unfold sentiment_of in Hs.
  unfold adjust_article, getitem. rewrite Hs. simpl.
  assert (article < length h) as Hlt.
  { apply deref_allocated. intros Heq. by rewrite Heq in Hs. }
  destruct (String.eqb_spec s "NEUTRAL") as [->|Hne].
  - eexists. split; [done|]. split; [by rewrite length_alter|].
    intros r. rewrite deref_alter by done. case_decide; [|done]. subst r.
    unfold adjusted. by rewrite bool_decide_eq_true_2.
  - exists h. split_and!; [done..|]. intros r. case_decide; [|done]. subst r.
    unfold adjusted. rewrite bool_decide_eq_false_2; [done|]. congruence.
Qed.

Lemma sentiment_adjusted a : sentiment (adjusted a) = sentiment a.
Proof. unfold adjusted. by case_bool_decide. Qed.

Lemma adjust_loop_spec articles h :
  Forall (has_sentiment h) articles →
  ∃ h', adjust_loop articles h = Ok h'
    ∧ length h' = length h
    ∧ ∀ r, deref h' r =
        if decide (r ∈ articles) then adjusted (deref h r) else deref h r.
Proof.
  revert h. induction articles as [|a rest IH]; intros h Hall.
  - exists h. split_and!; [done..|]. intros r.
    by rewrite decide_False by apply not_elem_of_nil.
  - apply Forall_cons in Hall as [Ha Hrest].
    destruct (adjust_article_spec a h Ha) as (h1 & Hh1 & Hlen1 & Hd1).
    destruct (IH h1) as (h' & Hh' & Hlen & Hd).
    { eapply Forall_impl; [done|]. intros r Hr.
      unfold has_sentiment, sentiment_of. rewrite Hd1.
      case_decide; [|done]. by rewrite sentiment_adjusted. }
    exists h'. simpl. rewrite Hh1. simpl. split; [done|].
    split; [congruence|]. intros r. rewrite Hd, !Hd1.
    destruct (decide (r ∈ a :: rest)) as [Hin|Hin];
      destruct (decide (r ∈ rest)); destruct (decide (r = a)); subst;
      try done; try apply adjusted_idemp; exfalso; set_solver.
Qed.

Lemma adjust_loop_missing_sentiment pre a post h :
  Forall (has_sentiment h) pre → sentiment_of h a = None →
  adjust_loop (pre ++ a :: post) h = Raise (KeyError "sentiment").
Proof.
  revert h. induction pre as [|b pre IH]; intros h Hpre Ha; simpl.
  - unfold adjust_article, getitem. unfold sentiment_of in Ha. by rewrite Ha.
  - apply Forall_cons in Hpre as [Hb Hpre].
    destruct (adjust_article_spec b h Hb) as (h1 & -> & _ & Hd1). simpl.
    apply IH.
    + eapply Forall_impl; [done|]. intros r Hr.
      unfold has_sentiment, sentiment_of. rewrite Hd1.
      case_decide; [|done]. by rewrite sentiment_adjusted.
    + unfold sentiment_of. rewrite Hd1. case_decide; [|done].
      by rewrite sentiment_adjusted.
Qed.

(** The scoring followed by the adjustment, as [main] chains them: every
    article of the list gets the label of the classifier for its title, and
    the score of the classifier unless the label is NEUTRAL. *)
Lemma analyze_then_adjust self articles h :
  Forall (has_title h) articles →
  ∃ h1 h2,
    analyze_sentiment self articles h = Ok (articles, h1)
    ∧ adjust_subjectivity articles h1 = Ok (articles, h2)
    ∧ ∀ r t, r ∈ articles → title (deref h r) = Some t →
        let result := sentiment_model self t in
        sentiment_of h2 r = Some (label result)
        ∧ subjectivity_of h2 r =
          Some (if String.eqb (label result) "NEUTRAL"
                then float_0_1 else score result).
Proof.
  intros Hall.
  destruct (analyze_loop_spec self articles h Hall) as (h1 & Hh1 & _ & Hd1).
  destruct (adjust_loop_spec articles h1) as (h2 & Hh2 & _ & Hd2).
  { apply Forall_forall. intros r Hr. unfold has_sentiment, sentiment_of.
    rewrite Hd1, decide_True by done.
    destruct (proj1 (Forall_forall _ _) Hall r Hr) as [t Ht].
    unfold analyzed. by rewrite Ht. }
  exists h1, h2. unfold analyze_sentiment, adjust_subjectivity.
  rewrite Hh1. simpl. rewrite Hh2. split_and!; [done..|].
  intros r t Hr Ht. unfold sentiment_of, subjectivity_of.
  rewrite Hd2, Hd1, !decide_True by done.
  unfold analyzed, adjusted. rewrite Ht. simpl.
  destruct (String.eqb_spec (label (sentiment_model self t)) "NEUTRAL")
    as [Heq|Hne].
  - by rewrite bool_decide_eq_true_2 by (by rewrite Heq).
  - rewrite bool_decide_eq_false_2; [done|]. congruence.
Qed.

(** C3. For every list of scored articles the adjustment returns the same
    list, and in the heap it leaves every article of the list keeps its
    sentiment label, has subjectivity exactly 0.1 when that label is NEUTRAL,
    and keeps the score it had when the label is another one.  Nothing else
    in the heap changes. *)
Theorem adjust_subjectivity_neutral_override articles h :
  Forall (has_sentiment h) articles →
  ∃ h', adjust_subjectivity articles h = Ok (articles, h')
    ∧ (∀ r, r ∈ articles →
         sentiment_of h' r = sentiment_of h r
         ∧ (sentiment_of h r = Some "NEUTRAL" →
            subjectivity_of h' r = Some float_0_1)
         ∧ (sentiment_of h r ≠ Some "NEUTRAL" →
            subjectivity_of h' r = subjectivity_of h r)
         ∧ title (deref h' r) = title (deref h r)
         ∧ link_of h' r = link_of h r
         ∧ published_of h' r = published_of h r
         ∧ description (deref h' r) = description (deref h r))
    ∧ (∀ r, r ∉ articles → deref h' r = deref h r).
Proof.
  intros Hall. destruct (adjust_loop_spec articles h Hall) as (h' & Hh' & _ & Hd).
  exists h'. unfold adjust_subjectivity. rewrite Hh'. split; [done|]. split.
  - intros r Hr.
    unfold sentiment_of, subjectivity_of, link_of, published_of.
    rewrite Hd, decide_True by done. unfold adjusted.
    case_bool_decide as Hs; simpl; by split_and!.
  - intros r Hr. by rewrite Hd, decide_False.
Qed.

Lemma adjust_subjectivity_neutral_override_witness :
  ∃ h', adjust_subjectivity [0; 1] Examples.scored = Ok ([0; 1], h')
    ∧ (∀ r, r ∈ [0; 1] →
         sentiment_of h' r = sentiment_of Examples.scored r
         ∧ (sentiment_of Examples.scored r = Some "NEUTRAL" →
            subjectivity_of h' r = Some float_0_1)
         ∧ (sentiment_of Examples.scored r ≠ Some "NEUTRAL" →
            subjectivity_of h' r = subjectivity_of Examples.scored r)
         ∧ title (deref h' r) = title (deref Examples.scored r)
         ∧ link_of h' r = link_of Examples.scored r
         ∧ published_of h' r = published_of Examples.scored r
         ∧ description (deref h' r) = description (deref Examples.scored r))
    ∧ (∀ r, r ∉ [0; 1] → deref h' r = deref Examples.scored r).
Proof.
  apply (adjust_subjectivity_neutral_override [0; 1] Examples.scored).
  repeat constructor; by eexists.
Defined.

(** An article scored NEUTRAL with confidence 0.87 comes out with
    subjectivity 0.1 and the same label; the positive one is untouched. *)
Example adjust_subjectivity_scored :
  adjust_subjectivity [0; 1] Examples.scored =
  Ok ([0; 1],
      [ set_subjectivity float_0_1 (set_sentiment "NEUTRAL" Examples.a_first);
        set_subjectivity 0.5%float (set_sentiment "POSITIVE" Examples.b_only) ]).
Proof. reflexivity. Qed.

(** An article that was never scored makes the adjustment raise. *)
Lemma adjust_subjectivity_unscored pre a post h :
  Forall (has_sentiment h) pre → sentiment_of h a = None →
  adjust_subjectivity (pre ++ a :: post) h = Raise (KeyError "sentiment").
Proof.
  intros Hpre Ha. unfold adjust_subjectivity.
  by rewrite (adjust_loop_missing_sentiment pre a post h Hpre Ha).
Qed.

(** ** Substrings and the keyword filter *)

Lemma append_String c s t : String c s +:+ t = String c (s +:+ t).
Proof. reflexivity. Qed.

Lemma append_empty t : "" +:+ t = t.
Proof. reflexivity. Qed.

Lemma string_prefix_spec k s :
  String.prefix k s = true ↔ ∃ post, s = k +:+ post.
Proof.
  revert s. induction k as [|c k IH]; intros s; simpl.
  - destruct s; (split; [by eexists|done]).
  - destruct s as [|c' s]; simpl.
    + split; [done|]. by intros [post ?].
    + destruct (ascii_dec c c') as [->|Hne].
      * rewrite IH. split; intros [post Hpost]; exists post;
          rewrite append_String in *; congruence.
      * split; [done|]. intros [post Hpost].
        rewrite append_String in Hpost. congruence.
Qed.

Lemma str_in_spec k s : str_in k s = true ↔ substring_of k s.
Proof.
  unfold substring_of. induction s as [|c s IH]; cbn [str_in].
  - rewrite orb_false_r, string_prefix_spec. split.
    + intros [post Hpost]. by exists "", post.
    + intros ([|? ?] & post & Hpost); [by exists post | done].
  - rewrite orb_true_iff, string_prefix_spec, IH. split.
    + intros [[post Hpost]|(pre & post & ->)].
      * by exists "", post.
      * by exists (String c pre), post.
    + intros ([|c' pre] & post & Hpost).
      * left. by exists post.
      * right. exists pre, post. rewrite append_String in Hpost. congruence.
Qed.

Lemma any_keyword_spec title summary keywords :
  any_keyword title summary keywords = true ↔
  ∃ keyword, keyword ∈ keywords
    ∧ (substring_of keyword title ∨ substring_of keyword summary).
Proof.
  unfold any_keyword. rewrite existsb_exists. split.
  - intros (kw & Hin & Hkw). exists kw. split; [by apply list_elem_of_In|].
    apply orb_true_iff in Hkw. by rewrite <-!str_in_spec.
  - intros (kw & Hin & Hkw). exists kw. split; [by apply list_elem_of_In|].
    apply orb_true_iff. by rewrite !str_in_spec.
Qed.

Lemma filter_loop_spec h articles keywords filtered_articles :
  filter_loop h articles keywords filtered_articles =
  filtered_articles ++
  List.filter
    (λ r, any_keyword (get_or_empty title h r) (get_or_empty description h r)
            keywords)
    articles.
Proof.
  revert filtered_articles.
  induction articles as [|a rest IH]; intros acc; simpl.
  - by rewrite app_nil_r.
  - destruct (any_keyword _ _ _); rewrite IH; [|done].
    by rewrite <-(assoc_L (++)).
Qed.

Lemma sublist_List_filter {A} (f : A → bool) (l : list A) :
  sublist (List.filter f l) l.
Proof.
  induction l as [|x l IH]; simpl; [constructor|].
  destruct (f x); by constructor.
Qed.

Lemma filter_articles_by_keywords_mem h articles keywords r :
  r ∈ filter_articles_by_keywords h articles keywords ↔
  r ∈ articles ∧ mentions h keywords r.
Proof.
  unfold filter_articles_by_keywords. rewrite filter_loop_spec. simpl.
  rewrite list_elem_of_In, filter_In, <-list_elem_of_In.
  by rewrite any_keyword_spec.
Qed.

(** C4. For every list of articles and every list of keywords, the keyword
    filter returns the input filtered by a test that holds exactly for the
    articles that mention a keyword in their title or description (the empty
    string when absent): a subsequence of the input, in which an article
    occurs if and only if it occurs in the input and mentions a keyword.
    The filter reads the heap and leaves it as it is. *)
Theorem filter_articles_by_keywords_iff h articles keywords :
  ∃ keep : loc → bool,
    (∀ r, keep r = true ↔ mentions h keywords r)
    ∧ filter_articles_by_keywords h articles keywords = List.filter keep articles
    ∧ sublist (filter_articles_by_keywords h articles keywords) articles
    ∧ (∀ r, r ∈ filter_articles_by_keywords h articles keywords ↔
            r ∈ articles ∧ mentions h keywords r).
Proof.
  exists (λ r, any_keyword (get_or_empty title h r)
                 (get_or_empty description h r) keywords).
  assert (∀ r, any_keyword (get_or_empty title h r)
                 (get_or_empty description h r) keywords = true
               ↔ mentions h keywords r) as Hkeep
    by (intros r; apply any_keyword_spec).
  unfold filter_articles_by_keywords. rewrite filter_loop_spec. simpl.
  split_and!; [done | done | apply sublist_List_filter |].
  intros r. by rewrite list_elem_of_In, filter_In, <-list_elem_of_In, Hkeep.
Qed.

(** Of the three example articles only the second mentions a keyword of the
    railways set. *)
Example filter_articles_by_keywords_rzd :
  filter_articles_by_keywords Examples.fetched [0; 1; 2] keywords_rzd = [1].
Proof. reflexivity. Qed.

(** ** Fetching *)

Lemma is_retry_forcelist retries retries_left response :
  status_code response ∈ status_forcelist retries →
  is_retry retries retries_left response = true.
Proof. intros Hin. unfold is_retry. by rewrite bool_decide_eq_true_2. Qed.

Lemma is_retry_handed_back retries retries_left response :
  handed_back retries response →
  is_retry retries retries_left response = false.
Proof.
  intros [Hforce Hafter]. unfold is_retry.
  rewrite bool_decide_eq_false_2 by done. simpl.
  destruct (retry_after response); [|by rewrite andb_false_r].
  rewrite bool_decide_eq_false_2 by (by apply Hafter).
  by rewrite andb_false_r.
Qed.

Lemma send_unreachable retries endpoint retries_left n :
  (∀ i, endpoint i = ConnectionFailed) →
  send retries endpoint retries_left n = Raised ConnectionError.
Proof.
  intros Hdown. revert n.
  induction retries_left as [|k IH]; intros n; simpl; rewrite Hdown; [done|].
  apply IH.
Qed.

Lemma send_after_retries retries endpoint response k :
  ∀ retries_left n,
    k ≤ retries_left →
    (∀ i, i < k → ∃ r, endpoint (n + i) = Answered r
                     ∧ status_code r ∈ status_forcelist retries) →
    endpoint (n + k) = Answered response →
    handed_back retries response →
    send retries endpoint retries_left n = Returned response.
Proof.
  induction k as [|k IH]; intros retries_left n Hle Hfail Hresp Hstatus.
  - rewrite Nat.add_0_r in Hresp.
    destruct retries_left; simpl; rewrite Hresp;
      by rewrite is_retry_handed_back.
  - destruct retries_left as [|left]; [lia|].
    destruct (Hfail 0) as (r & Hr & Hforce); [lia|].
    rewrite Nat.add_0_r in Hr. simpl. rewrite Hr.
    rewrite is_retry_forcelist by done.
    apply IH; [lia | | by rewrite Nat.add_succ_comm | done].
    intros i Hi. rewrite Nat.add_succ_comm. apply Hfail. lia.
Qed.

Lemma send_exhausted retries endpoint :
  ∀ retries_left n,
    (∀ i, i ≤ retries_left → ∃ r, endpoint (n + i) = Answered r
                     ∧ status_code r ∈ status_forcelist retries) →
    send retries endpoint retries_left n = Raised RetryError.
Proof.
  induction retries_left as [|left IH]; intros n Hfail.
  - destruct (Hfail 0) as (r & Hr & Hforce); [lia|].
    rewrite Nat.add_0_r in Hr. simpl. rewrite Hr.
    by rewrite is_retry_forcelist.
  - destruct (Hfail 0) as (r & Hr & Hforce); [lia|].
    rewrite Nat.add_0_r in Hr. simpl. rewrite Hr.
    rewrite is_retry_forcelist by done.
    apply IH. intros i Hi. rewrite Nat.add_succ_comm. apply Hfail. lia.
Qed.

Lemma fetched_articles_spec raw arts h :
  Forall2 (λ r a, project r = Ok a) raw arts →
  fetched_articles raw h = Ok (seq (length h) (length arts), h ++ arts).
Proof.
  intros Hall. revert h. induction Hall as [|r a raw arts Hr _ IH]; intros h.
  - simpl. by rewrite app_nil_r.
  - simpl. rewrite Hr. simpl. rewrite IH. simpl.
    rewrite length_app, Nat.add_1_r, <-(assoc_L (++)). done.
Qed.

Lemma project_Ok r a :
  project r = Ok a →
  a = Article (raw_title r) (raw_url r) (raw_publishedAt r) None None None
  ∧ is_Some (raw_title r) ∧ is_Some (raw_url r) ∧ is_Some (raw_publishedAt r).
Proof.
  unfold project.
  destruct (raw_title r), (raw_url r), (raw_publishedAt r); intros [= <-];
    by split_and!.
Qed.

(** When the request raises, the handler of [fetch_news] raises in turn. *)
Lemma fetch_news_raised self net query h e :
  session_get (session self) net (search_url self query) HEADERS = Raised e →
  fetch_news self net query h = Raise (UnboundLocalError "response").
Proof. intros Hget. unfold fetch_news, fetch_news_try. by rewrite Hget. Qed.

(** When a response arrives with a 4xx or 5xx status, [fetch_news] returns
    the empty list. *)
Lemma fetch_news_http_error self net query h response :
  session_get (session self) net (search_url self query) HEADERS
    = Returned response →
  (400 ≤ status_code response < 600)%Z →
  fetch_news self net query h = Ok ([], h).
Proof.
  intros Hget Hstatus. unfold fetch_news, fetch_news_try. rewrite Hget.
  unfold raise_for_status. by rewrite bool_decide_eq_true_2.
Qed.

Example fetch_news_not_found :
  fetch_news (NewsFetcher_init "key") Examples.not_found "ВСМ" [] = Ok ([], []).
Proof. reflexivity. Qed.

(** C5, at an endpoint that cannot be reached: the request raises before a
    response exists, the handler reads the local [response], which was never
    assigned, and [fetch_news] ends with [UnboundLocalError] where the empty
    list is expected. *)
Theorem fetch_news_unreachable_raises self query h :
  fetch_news self Examples.unreachable query h
  = Raise (UnboundLocalError "response").
Proof.
  apply (fetch_news_raised _ _ _ _ ConnectionError).
  unfold session_get. by apply send_unreachable.
Qed.

(** The same happens when the retries are used up on a status of the force
    list: six answers 503 in a row. *)
Lemma fetch_news_retries_exhausted api_key net query h :
  (∀ n, n ≤ 5 →
     ∃ r, net (search_url (NewsFetcher_init api_key) query) HEADERS n = Answered r
          ∧ status_code r = 503%Z) →
  fetch_news (NewsFetcher_init api_key) net query h
  = Raise (UnboundLocalError "response").
Proof.
  intros Hfail. apply (fetch_news_raised _ _ _ _ RetryError).
  unfold session_get. apply send_exhausted. simpl. intros i Hi.
  destruct (Hfail i Hi) as (r & Hr & Hs). exists r. split; [done|].
  rewrite Hs. set_solver.
Qed.

(** C7. With the session that [NewsFetcher.__init__] builds (5 retries,
    backoff factor 0.1, force list 500, 502, 503, 504), when the endpoint
    answers a query with a status of the force list on the first [k] attempts,
    [k] at most 5, and with 200 and a body of complete articles on the next,
    [fetch_news] returns the articles of that body, as new dicts in the
    heap. *)
Theorem fetch_news_succeeds_after_retries api_key net query h k response body arts :
  let self := NewsFetcher_init api_key in
  let url := search_url self query in
  k ≤ 5 →
  (∀ n, n < k → ∃ r, net url HEADERS n = Answered r
                   ∧ status_code r ∈ [500; 502; 503; 504]%Z) →
  net url HEADERS k = Answered response →
  status_code response = 200%Z →
  parsed response = Some body →
  Forall2 (λ r a, project r = Ok a) (default [] (articles body)) arts →
  max_retries (session self) =
    {| total := 5; backoff_factor := float_0_1;
       status_forcelist := [500; 502; 503; 504]%Z |}
  ∧ session_get (session self) net url HEADERS = Returned response
  ∧ fetch_news self net query h
    = Ok (seq (length h) (length arts), h ++ arts).
Proof.
  intros self url Hk Hfail Hresp Hstatus Hbody Harts.
  assert (session_get (session self) net url HEADERS = Returned response)
    as Hget.
  { unfold session_get.
    apply (send_after_retries _ _ _ k); simpl; [done|done|done|].
    unfold handed_back, RETRY_AFTER_STATUS_CODES. simpl. rewrite Hstatus.
    set_solver. }
  split_and!; [done | done |].
  unfold fetch_news, fetch_news_try. fold self. fold url. rewrite Hget.
  unfold raise_for_status. rewrite Hstatus. simpl.
  unfold response_json. rewrite Hbody. simpl.
  by apply fetched_articles_spec.
Qed.

Lemma fetch_news_succeeds_after_retries_witness :
  max_retries (session (NewsFetcher_init "key")) =
    {| total := 5; backoff_factor := float_0_1;
       status_forcelist := [500; 502; 503; 504]%Z |}
  ∧ session_get (session (NewsFetcher_init "key")) Examples.flaky
      (search_url (NewsFetcher_init "key") "ВСМ") HEADERS
    = Returned Examples.found
  ∧ fetch_news (NewsFetcher_init "key") Examples.flaky "ВСМ" []
    = Ok ([0; 1], [Examples.a_first; Examples.b_only]).
Proof.
  apply (fetch_news_succeeds_after_retries "key" Examples.flaky "ВСМ" [] 3
           Examples.found Examples.found_body
           [Examples.a_first; Examples.b_only]).
  - lia.
  - intros n Hn. exists Examples.unavailable. split.
    + unfold Examples.flaky. by rewrite (proj2 (Nat.ltb_lt n 3) Hn).
    + simpl. set_solver.
  - reflexivity.
  - reflexivity.
  - reflexivity.
  - repeat constructor.
Defined.

(** ** The run of [main] *)

Lemma fetched_articles_inv raw h rs h' :
  fetched_articles raw h = Ok (rs, h') →
  ∃ new, h' = h ++ new ∧ rs = seq (length h) (length new) ∧ Forall fresh new.
Proof.
  revert h rs h'. induction raw as [|a rest IH]; intros h rs h'; simpl.
  - intros [= <- <-]. exists []. by rewrite app_nil_r.
  - destruct (project a) as [d|] eqn:Hd; [|done]. simpl.
    destruct (fetched_articles rest (h ++ [d])) as [[rs2 h2]|] eqn:Hrest;
      [|done].
    simpl. intros [= <- <-].
    destruct (IH _ _ _ Hrest) as (new & -> & -> & Hnew).
    exists (d :: new). split_and!.
    + by rewrite <-(assoc_L (++)).
    + by rewrite length_app, Nat.add_1_r.
    + constructor; [|done]. apply project_Ok in Hd as (-> & ? & ? & ?).
      by split_and!.
Qed.

Lemma fetch_news_inv self net query h rs h' :
  fetch_news self net query h = Ok (rs, h') →
  ∃ new, h' = h ++ new ∧ rs = seq (length h) (length new) ∧ Forall fresh new.
Proof.
  unfold fetch_news.
  destruct (fetch_news_try self net (search_url self query))
    as [[response|] [e|]]; try done.
  - intros [= <- <-]. exists []. by rewrite app_nil_r.
  - destruct (response_json response) as [body|]; [|done]. simpl.
    apply fetched_articles_inv.
Qed.

Lemma fetches_inv self net h all_articles :
  fetches self net h all_articles →
  all_articles = seq 0 (length h) ∧ Forall fresh h.
Proof.
  intros (vish & h1 & hs & h2 & rzd & Hv & Hh & Hr & ->).
  apply fetch_news_inv in Hv as (new1 & -> & -> & Hnew1).
  apply fetch_news_inv in Hh as (new2 & -> & -> & Hnew2).
  apply fetch_news_inv in Hr as (new3 & -> & -> & Hnew3).
  simpl. rewrite !length_app. split.
  - by rewrite !seq_app, <-(assoc_L (++)).
  - by rewrite !Forall_app.
Qed.

Lemma fresh_deref h r : Forall fresh h → r < length h → fresh (deref h r).
Proof.
  intros Hall Hr. unfold deref.
  destruct (lookup_lt_is_Some_2 h r Hr) as [a Ha].
  rewrite (list_lookup_total_correct _ _ _ Ha).
  by apply (Forall_lookup_1 _ _ _ _ Hall Ha).
Qed.

Lemma sentiment_adjusted_analyzed self a :
  is_Some (title a) →
  is_Some (sentiment (adjusted (analyzed self a)))
  ∧ is_Some (subjectivity (adjusted (analyzed self a))).
Proof.
  intros [t Ht]. unfold analyzed. rewrite Ht. unfold adjusted.
  by case_bool_decide.
Qed.

Lemma frame_adjusted_analyzed self a :
  title (adjusted (analyzed self a)) = title a
  ∧ link (adjusted (analyzed self a)) = link a
  ∧ published (adjusted (analyzed self a)) = published a
  ∧ description (adjusted (analyzed self a)) = description a.
Proof.
  unfold adjusted, analyzed. destruct a as [[t|] l p d s x]; simpl;
    by case_bool_decide.
Qed.

(** What [main] computes up to line 168, when the three fetches return:
    the fetches leave a heap [h] of fresh dicts; the deduplicated list [us]
    has no reference twice; the sorted list is a permutation of it; and the
    final heap holds, at every reference of the sorted list, the scored and
    adjusted form of the dict that [h] holds there, and [h] elsewhere. *)
Lemma main_collect_spec self net h all_articles :
  fetches self net h all_articles →
  ∃ us sorted_articles h',
    unique_articles h all_articles = Ok us
    ∧ filter_and_sort_articles h us = Ok sorted_articles
    ∧ main_collect self net =
      Ok {| m_unique_articles := us;
            m_analyzed_articles := sorted_articles;
            m_filtered_vish :=
              filter_articles_by_keywords h' sorted_articles keywords_vish;
            m_filtered_high_speed :=
              filter_articles_by_keywords h' sorted_articles keywords_high_speed;
            m_filtered_rzd :=
              filter_articles_by_keywords h' sorted_articles keywords_rzd;
            m_final_articles :=
              filter_articles_by_keywords h' sorted_articles keywords_vish
              ++ filter_articles_by_keywords h' sorted_articles keywords_high_speed
              ++ filter_articles_by_keywords h' sorted_articles keywords_rzd;
            m_heap := h' |}
    ∧ NoDup (link_of h <$> us)
    ∧ sorted_articles ≡ₚ us
    ∧ Forall (λ r, fresh (deref h r)) us
    ∧ ∀ r, deref h' r =
        if decide (r ∈ sorted_articles)
        then adjusted (analyzed self (deref h r)) else deref h r.
Proof.
  intros Hfetch. destruct (fetches_inv _ _ _ _ Hfetch) as [Hall Hfresh].
  assert (Forall (λ r, fresh (deref h r)) all_articles) as Hall_fresh.
  { rewrite Hall. apply Forall_forall. intros r Hr%elem_of_seq.
    apply fresh_deref; [done | lia]. }
  destruct (unique_articles_links h all_articles) as (us & Hus & Hks).
  { eapply Forall_impl; [done|]. by intros r (_ & ? & _). }
  assert (Forall (λ r, fresh (deref h r)) us) as Hus_fresh.
  { apply Forall_forall. intros u Hu.
    destruct (unique_articles_last h all_articles us u Hus Hu)
      as (pre & post & Heq & _).
    apply (proj1 (Forall_forall _ _) Hall_fresh). rewrite Heq. set_solver. }
  assert (NoDup (link_of h <$> us)) as Hnd.
  { rewrite Hks. apply NoDup_first_occurrences. }
  destruct (filter_and_sort_articles_keyed h us)
    as (ks & Hsorted & Hsnd & _).
  { eapply Forall_impl; [done|]. by intros r (_ & _ & ?). }
  set (sorted_articles := sorted_reverse ks) in *.
  assert (sorted_articles ≡ₚ us) as Hperm.
  { unfold sorted_articles. by rewrite sorted_reverse_perm, Hsnd. }
  destruct (analyze_loop_spec self sorted_articles h) as (h1 & Hh1 & _ & Hd1).
  { rewrite Hperm. eapply Forall_impl; [done|]. by intros r (? & _ & _). }
  destruct (adjust_loop_spec sorted_articles h1) as (h2 & Hh2 & _ & Hd2).
  { apply Forall_forall. intros r Hr. unfold has_sentiment, sentiment_of.
    rewrite Hd1, decide_True by done.
    assert (fresh (deref h r)) as ([t Ht] & _ & _).
    { apply (proj1 (Forall_forall _ _) Hus_fresh). by rewrite <-Hperm. }
    unfold analyzed. by rewrite Ht. }
  exists us, sorted_articles, h2. split_and!; try done.
  - destruct Hfetch as (vish & h01 & hs & h02 & rzd & Hv & Hh & Hr & Heq).
    unfold main_collect. rewrite Hv. simpl. rewrite Hh. simpl.
    rewrite Hr. simpl. rewrite <-Heq, Hus. simpl. rewrite Hsorted. simpl.
    unfold analyze_sentiment. rewrite Hh1. simpl.
    unfold adjust_subjectivity. rewrite Hh2. done.
  - intros r. rewrite Hd2, Hd1. by case_decide.
Qed.

(** *** The dashboard *)

Lemma append_assoc (a b c : string) : (a +:+ b) +:+ c = a +:+ (b +:+ c).
Proof.
  induction a as [|x a IH]; [done|]. by rewrite !append_String, IH.
Qed.

Lemma dashboard_item_total format_2f h r :
  is_Some (title (deref h r)) → is_Some (link_of h r) →
  is_Some (published_of h r) → is_Some (sentiment_of h r) →
  is_Some (subjectivity_of h r) →
  ∃ item, dashboard_item format_2f h r = Ok item.
Proof.
  unfold link_of, published_of, sentiment_of, subjectivity_of.
  intros [t Ht] [l Hl] [p Hp] [s Hs] [x Hx].
  unfold dashboard_item, getitem. rewrite Ht, Hl, Hp, Hs, Hx. simpl.
  by eexists.
Qed.

Lemma dashboard_loop_spec format_2f h data items dashboard :
  Forall2 (λ r item, dashboard_item format_2f h r = Ok item) data items →
  dashboard_loop format_2f h data dashboard
  = Ok (dashboard +:+ join_strings items).
Proof.
  intros Hall. revert dashboard.
  induction Hall as [|r item data items Hitem _ IH]; intros dashboard; simpl.
  - f_equal. induction dashboard as [|c d IHd]; [done|].
    by rewrite append_String, <-IHd.
  - rewrite Hitem. simpl. by rewrite IH, append_assoc.
Qed.

Lemma create_dashboard_spec format_2f h data :
  Forall (λ r, fresh (deref h r) ∧ is_Some (sentiment_of h r)
               ∧ is_Some (subjectivity_of h r)) data →
  ∃ items,
    Forall2 (λ r item, dashboard_item format_2f h r = Ok item) data items
    ∧ create_dashboard format_2f h data
      = Ok (dashboard_header +:+ join_strings items +:+ dashboard_footer).
Proof.
  intros Hall.
  assert (∃ items,
    Forall2 (λ r item, dashboard_item format_2f h r = Ok item) data items)
    as [items Hitems].
  { induction Hall as [|r data ((Ht & Hl & Hp) & Hs & Hx) _ [items IH]].
    - by exists [].
    - destruct (dashboard_item_total format_2f h r) as [item Hitem]; try done.
      exists (item :: items). by constructor. }
  exists items. split; [done|]. unfold create_dashboard.
  rewrite (dashboard_loop_spec _ _ _ _ _ Hitems). simpl.
  by rewrite append_assoc.
Qed.

(** *** Occurrences *)





(** *** [main] as a whole *)

(** When the three fetches return, [main] returns: it writes the report as
    the heap stands after the adjustment, and a dashboard of one item per
    entry of [final_articles].  The lists of the report are related as
    lines 156-168 make them. *)
Lemma main_spec format_2f self net fs h all_articles :
  fetches self net h all_articles →
  ∃ m items,
    main_collect self net = Ok m
    ∧ main format_2f self net fs
      = Ok (save_dashboard
              (dashboard_header +:+ join_strings items +:+ dashboard_footer)
              "news_dashboard.html"
              (save_to_json (m_heap m) (report m) "all_articles.json" fs))
    ∧ Forall2 (λ r item, dashboard_item format_2f (m_heap m) r = Ok item)
        (m_final_articles m) items
    ∧ unique_articles h all_articles = Ok (m_unique_articles m)
    ∧ NoDup (link_of (m_heap m) <$> m_unique_articles m)
    ∧ m_analyzed_articles m ≡ₚ m_unique_articles m
    ∧ m_filtered_vish m = filter_articles_by_keywords (m_heap m)
                            (m_analyzed_articles m) keywords_vish
    ∧ m_filtered_high_speed m = filter_articles_by_keywords (m_heap m)
                                  (m_analyzed_articles m) keywords_high_speed
    ∧ m_filtered_rzd m = filter_articles_by_keywords (m_heap m)
                           (m_analyzed_articles m) keywords_rzd
    ∧ m_final_articles m
      = m_filtered_vish m ++ m_filtered_high_speed m ++ m_filtered_rzd m
    ∧ ∀ r, r ∈ m_analyzed_articles m →
        is_Some (sentiment_of (m_heap m) r)
        ∧ is_Some (subjectivity_of (m_heap m) r).
Proof.
  intros Hfetch.
  destruct (main_collect_spec self net h all_articles Hfetch)
    as (us & sorted_articles & h' & Hus & _ & Hm & Hnd & Hperm & Hfresh & Hd).
  assert (∀ r, r ∈ sorted_articles →
            fresh (deref h' r) ∧ is_Some (sentiment_of h' r)
            ∧ is_Some (subjectivity_of h' r)) as Hscored.
  { intros r Hr. unfold sentiment_of, subjectivity_of, fresh.
    rewrite Hd, decide_True by done.
    assert (fresh (deref h r)) as (Ht & Hl & Hp).
    { apply (proj1 (Forall_forall _ _) Hfresh). by rewrite <-Hperm. }
    destruct (frame_adjusted_analyzed self (deref h r)) as (-> & -> & -> & _).
    destruct (sentiment_adjusted_analyzed self (deref h r) Ht) as [? ?].
    by split_and!. }
  destruct (create_dashboard_spec format_2f h'
     (filter_articles_by_keywords h' sorted_articles keywords_vish
      ++ filter_articles_by_keywords h' sorted_articles keywords_high_speed
      ++ filter_articles_by_keywords h' sorted_articles keywords_rzd))
    as (items & Hitems & Hdash).
  { rewrite !Forall_app. split_and!; apply Forall_forall; intros r Hr;
      apply Hscored;
      by apply (proj1 (filter_articles_by_keywords_mem _ _ _ _) Hr). }
  eexists _, items. split; [exact Hm|]. simpl. split_and!; try done.
  - unfold main. rewrite Hm. simpl. by rewrite Hdash.
  - assert (link_of h' <$> us = link_of h <$> us) as ->; [|done].
    apply list_fmap_ext. intros _ r _. unfold link_of. rewrite Hd.
    case_decide; [|done].
    by destruct (frame_adjusted_analyzed self (deref h r)) as (_ & -> & _).
  - intros r Hr. by destruct (Hscored r Hr) as (_ & ? & ?).
Qed.

Lemma lookup_report (fs : files) html h result :
  save_dashboard html "news_dashboard.html"
    (save_to_json h result "all_articles.json" fs) !! "all_articles.json"
  = Some (JsonFile (JObject (prod_map id (json_of_articles h) <$> result))).
Proof.
  unfold save_dashboard, save_to_json.
  rewrite lookup_insert_ne by done. apply lookup_insert_eq.
Qed.

(** C6. When the three fetches return, [main] returns and the document it
    writes to [all_articles.json] is an object with exactly the six members
    [unique_articles], [analyzed_articles], [filtered_vish],
    [filtered_high_speed], [filtered_rzd] and [final_articles], each an
    array, the last being the first filtered array followed by the second
    and the third. *)
Theorem main_report_six_keys format_2f self net fs h all_articles :
  fetches self net h all_articles →
  ∃ fs' unique analyzed vish high_speed rzd,
    main format_2f self net fs = Ok fs'
    ∧ fs' !! "all_articles.json" = Some (JsonFile (JObject
        [ ("unique_articles", JArray unique);
          ("analyzed_articles", JArray analyzed);
          ("filtered_vish", JArray vish);
          ("filtered_high_speed", JArray high_speed);
          ("filtered_rzd", JArray rzd);
          ("final_articles", JArray (vish ++ high_speed ++ rzd)) ])).
Proof.
  intros Hfetch.
  destruct (main_spec format_2f self net fs h all_articles Hfetch)
    as (m & items & _ & Hmain & _ & _ & _ & _ & _ & _ & _ & Hfinal & _).
  eexists _, _, _, _, _, _. split; [exact Hmain|].
  rewrite lookup_report. unfold report, json_of_articles. csimpl.
  by rewrite Hfinal, !fmap_app.
Qed.

Lemma main_report_six_keys_witness :
  ∃ fs' unique analyzed vish high_speed rzd,
    main Examples.two_decimals Examples.parser Examples.flaky ∅ = Ok fs'
    ∧ fs' !! "all_articles.json" = Some (JsonFile (JObject
        [ ("unique_articles", JArray unique);
          ("analyzed_articles", JArray analyzed);
          ("filtered_vish", JArray vish);
          ("filtered_high_speed", JArray high_speed);
          ("filtered_rzd", JArray rzd);
          ("final_articles", JArray (vish ++ high_speed ++ rzd)) ])).
Proof.
  apply (main_report_six_keys Examples.two_decimals Examples.parser
           Examples.flaky ∅ Examples.fetched_thrice (seq 0 6)).
  unfold fetches. eexists _, _, _, _, _. split_and!; reflexivity.
Defined.

Lemma has_member_scored a :
  is_Some (sentiment a) → is_Some (subjectivity a) →
  has_member "sentiment" (json_of_article a)
  ∧ has_member "subjectivity" (json_of_article a).
Proof.
  intros [s Hs] [x Hx]. destruct a as [t l p d s' x']. simpl in Hs, Hx.
  subst s' x'. unfold json_of_article, has_member. simpl.
  destruct t, l, p, d; simpl; split; set_solver.
Qed.

(** C9. When the three fetches return, [main] returns and writes the report
    from the heap as the scoring and the adjustment, which work on the dicts
    in place, have left it: every article of every one of the six lists of
    the report, [unique_articles] among them, has a sentiment and a
    subjectivity there and is written with both members; and
    [unique_articles] is a permutation of [analyzed_articles]. *)
Theorem main_report_all_scored format_2f self net fs h all_articles :
  fetches self net h all_articles →
  ∃ fs' m,
    main_collect self net = Ok m
    ∧ main format_2f self net fs = Ok fs'
    ∧ fs' !! "all_articles.json" = Some (JsonFile (JObject
        (prod_map id (json_of_articles (m_heap m)) <$> report m)))
    ∧ (∀ name articles, (name, articles) ∈ report m →
         Forall (λ r,
           is_Some (sentiment_of (m_heap m) r)
           ∧ is_Some (subjectivity_of (m_heap m) r)
           ∧ has_member "sentiment" (json_of_article (deref (m_heap m) r))
           ∧ has_member "subjectivity" (json_of_article (deref (m_heap m) r)))
           articles)
    ∧ m_unique_articles m ≡ₚ m_analyzed_articles m.
Proof.
  intros Hfetch.
  destruct (main_spec format_2f self net fs h all_articles Hfetch)
    as (m & items & Hm & Hmain & _ & _ & _ & Hperm & Hv & Hh & Hr & Hfinal
        & Hscored).
  eexists _, m. split; [done|]. split; [exact Hmain|].
  split; [apply lookup_report|]. split; [|done].
  assert (∀ kws, Forall (λ r, r ∈ m_analyzed_articles m)
            (filter_articles_by_keywords (m_heap m) (m_analyzed_articles m) kws))
    as Hsub.
  { intros kws. apply Forall_forall. intros r Hr'.
    by apply filter_articles_by_keywords_mem in Hr' as [? _]. }
  assert (∀ articles, Forall (λ r, r ∈ m_analyzed_articles m) articles →
    Forall (λ r,
      is_Some (sentiment_of (m_heap m) r)
      ∧ is_Some (subjectivity_of (m_heap m) r)
      ∧ has_member "sentiment" (json_of_article (deref (m_heap m) r))
      ∧ has_member "subjectivity" (json_of_article (deref (m_heap m) r)))
      articles) as Hall.
  { intros articles Harts. eapply Forall_impl; [done|]. intros r Hin.
    destruct (Hscored r Hin) as [Hs Hx].
    destruct (has_member_scored _ Hs Hx). by split_and!. }
  intros name articles Hin. apply Hall. unfold report in Hin.
  rewrite Hfinal, Hv, Hh, Hr in Hin.
  repeat (apply elem_of_cons in Hin as [[= _ ->]|Hin]).
  - apply Forall_forall. intros r Hr'. by rewrite Hperm.
  - by apply Forall_forall.
  - apply Hsub.
  - apply Hsub.
  - apply Hsub.
  - rewrite !Forall_app. split_and!; apply Hsub.
  - by apply elem_of_nil in Hin.
Qed.

Lemma main_report_all_scored_witness :
  ∃ fs' m,
    main_collect Examples.parser Examples.flaky = Ok m
    ∧ main Examples.two_decimals Examples.parser Examples.flaky ∅ = Ok fs'
    ∧ fs' !! "all_articles.json" = Some (JsonFile (JObject
        (prod_map id (json_of_articles (m_heap m)) <$> report m)))
    ∧ (∀ name articles, (name, articles) ∈ report m →
         Forall (λ r,
           is_Some (sentiment_of (m_heap m) r)
           ∧ is_Some (subjectivity_of (m_heap m) r)
           ∧ has_member "sentiment" (json_of_article (deref (m_heap m) r))
           ∧ has_member "subjectivity" (json_of_article (deref (m_heap m) r)))
           articles)
    ∧ m_unique_articles m ≡ₚ m_analyzed_articles m.
Proof.
  apply (main_report_all_scored Examples.two_decimals Examples.parser
           Examples.flaky ∅ Examples.fetched_thrice (seq 0 6)).
  unfold fetches. eexists _, _, _, _, _. split_and!; reflexivity.
Defined.

Lemma sentiment_color_spec s :
  sentiment_color s =
  if decide (s = "POSITIVE") then "green"
  else if decide (s = "NEGATIVE") then "red" else "gray".
Proof.
  unfold sentiment_color.
  destruct (String.eqb_spec s "POSITIVE") as [->|Hp].
  - by rewrite decide_True.
  - rewrite decide_False by done.
    destruct (String.eqb_spec s "NEGATIVE") as [->|Hn].
    + by rewrite decide_True.
    + by rewrite decide_False.
Qed.

(** What [dashboard_item] returns is the list item of the entry. *)
Lemma dashboard_item_list_item format_2f h r item :
  dashboard_item format_2f h r = Ok item → list_item_of format_2f h r item.
Proof.
  unfold dashboard_item, getitem, list_item_of.
  unfold link_of, published_of, sentiment_of, subjectivity_of.
  destruct (sentiment (deref h r)) as [s|]; [|done]. simpl.
  destruct (link (deref h r)) as [l|]; [|done]. simpl.
  destruct (title (deref h r)) as [t|]; [|done]. simpl.
  destruct (published (deref h r)) as [p|]; [|done]. simpl.
  destruct (subjectivity (deref h r)) as [x|]; [|done]. simpl.
  intros [= <-]. exists l, t, p, s, x. rewrite sentiment_color_spec.
  by split_and!.
Qed.







(** At the endpoint of the examples the article about the railways and the
    high-speed lines is kept once by the deduplication and comes twice in
    [final_articles]. *)
Example main_collect_flaky :
  ∃ h, main_collect Examples.parser Examples.flaky =
    Ok {| m_unique_articles := [4; 5];
          m_analyzed_articles := [5; 4];
          m_filtered_vish := [];
          m_filtered_high_speed := [5];
          m_filtered_rzd := [5];
          m_final_articles := [5; 5];
          m_heap := h |}.
Proof. eexists. reflexivity. Qed.

(** * Further properties *)

(** ** Scoring *)

(** X1. For every list of articles that have a title, [analyze_sentiment]
    returns the list it was given and leaves every article of the list with
    the label and the score of the classifier for its title, every other
    key as it was, and every dict outside the list untouched. *)
Theorem analyze_sentiment_scores self articles h :
  Forall (has_title h) articles →
  ∃ h', analyze_sentiment self articles h = Ok (articles, h')
    ∧ (∀ r t, r ∈ articles → title (deref h r) = Some t →
         sentiment_of h' r = Some (label (sentiment_model self t))
         ∧ subjectivity_of h' r = Some (score (sentiment_model self t))
         ∧ title (deref h' r) = Some t
         ∧ link_of h' r = link_of h r
         ∧ published_of h' r = published_of h r
         ∧ description (deref h' r) = description (deref h r))
    ∧ (∀ r, r ∉ articles → deref h' r = deref h r).
Proof.
  intros Hall.
  destruct (analyze_loop_spec self articles h Hall) as (h' & Hh' & _ & Hd).
  exists h'. unfold analyze_sentiment. rewrite Hh'. split; [done|]. split.
  - intros r t Hr Ht.
    unfold sentiment_of, subjectivity_of, link_of, published_of.
    rewrite Hd, decide_True by done. unfold analyzed. by rewrite Ht.
  - intros r Hr. by rewrite Hd, decide_False.
Qed.

Lemma analyze_sentiment_scores_witness :
  ∃ h', analyze_sentiment Examples.parser [1; 2] Examples.fetched
        = Ok ([1; 2], h')
    ∧ (∀ r t, r ∈ [1; 2] → title (deref Examples.fetched r) = Some t →
         sentiment_of h' r = Some (label (sentiment_model Examples.parser t))
         ∧ subjectivity_of h' r
           = Some (score (sentiment_model Examples.parser t))
         ∧ title (deref h' r) = Some t
         ∧ link_of h' r = link_of Examples.fetched r
         ∧ published_of h' r = published_of Examples.fetched r
         ∧ description (deref h' r) = description (deref Examples.fetched r))
    ∧ (∀ r, r ∉ [1; 2] → deref h' r = deref Examples.fetched r).
Proof.
  apply (analyze_sentiment_scores Examples.parser [1; 2] Examples.fetched).
  repeat constructor; by eexists.
Defined.

(** X2. The first article without a title makes [analyze_sentiment] raise
    [KeyError] for [title], whatever comes after it. *)
Theorem analyze_sentiment_missing_title self pre a post h :
  Forall (has_title h) pre → title (deref h a) = None →
  analyze_sentiment self (pre ++ a :: post) h = Raise (KeyError "title").
Proof.
  intros Hpre Ha. unfold analyze_sentiment.
  by rewrite (analyze_loop_missing_title self pre a post h Hpre Ha).
Qed.

Lemma analyze_sentiment_missing_title_witness :
  analyze_sentiment Examples.parser ([0] ++ 3 :: [1]) Cases.partial
  = Raise (KeyError "title").
Proof.
  apply (analyze_sentiment_missing_title Examples.parser [0] 3 [1] Cases.partial).
  - repeat constructor; by eexists.
  - reflexivity.
Defined.

Lemma heap_eq (h1 h2 : list article) :
  length h1 = length h2 → (∀ r, deref h1 r = deref h2 r) → h1 = h2.
Proof.
  intros Hlen Hd. apply list_eq_same_length with (length h1); [done..|].
  intros i x y Hi Hx Hy. specialize (Hd i). unfold deref in Hd.
  rewrite (list_lookup_total_correct _ _ _ Hx) in Hd.
  by rewrite (list_lookup_total_correct _ _ _ Hy) in Hd.
Qed.

(** X3. The adjustment is idempotent: on a heap that it has left, a second
    run over the same list returns and changes nothing. *)
Theorem adjust_subjectivity_idempotent articles h h1 :
  adjust_subjectivity articles h = Ok (articles, h1) →
  adjust_subjectivity articles h1 = Ok (articles, h1).
Proof.
  unfold adjust_subjectivity.
  destruct (adjust_loop articles h) as [h1'|] eqn:Hrun; [|done]. simpl.
  intros [= ->].
  assert (Forall (has_sentiment h) articles) as Hall.
  { apply Forall_forall. intros r Hr. apply list_elem_of_split in Hr
      as (pre & post & ->).
    destruct (sentiment_of h r) eqn:Hs; [by eexists|].
    assert (∃ pre' a post', pre ++ r :: post = pre' ++ a :: post'
              ∧ Forall (has_sentiment h) pre' ∧ sentiment_of h a = None)
      as (pre' & a & post' & Heq & Hpre' & Ha).
    { clear Hrun. induction pre as [|b pre IH]; simpl.
      - by exists [], r, post.
      - destruct (sentiment_of h b) eqn:Hb.
        + destruct IH as (pre' & a & post' & -> & Hpre' & Ha).
          exists (b :: pre'), a, post'. split_and!; [done| |done].
          constructor; [by eexists | done].
        + by exists [], b, (pre ++ r :: post). }
    rewrite Heq in Hrun.
    by rewrite (adjust_loop_missing_sentiment pre' a post' h Hpre' Ha) in Hrun. }
  destruct (adjust_loop_spec articles h Hall) as (h1'' & Hh1 & Hlen1 & Hd1).
  rewrite Hrun in Hh1. injection Hh1 as <-.
  destruct (adjust_loop_spec articles h1) as (h2 & Hh2 & Hlen2 & Hd2).
  { apply Forall_forall. intros r Hr. unfold has_sentiment, sentiment_of.
    rewrite Hd1, decide_True, sentiment_adjusted by done.
    by apply (proj1 (Forall_forall _ _) Hall). }
  rewrite Hh2. simpl. do 2 f_equal. apply heap_eq; [done|].
  intros r. rewrite Hd2, Hd1. case_decide; [|done]. apply adjusted_idemp.
Qed.

Lemma adjust_subjectivity_idempotent_witness :
  adjust_subjectivity [0; 1]
    [ set_subjectivity float_0_1 (set_sentiment "NEUTRAL" Examples.a_first);
      set_subjectivity 0.5%float (set_sentiment "POSITIVE" Examples.b_only) ]
  = Ok ([0; 1],
      [ set_subjectivity float_0_1 (set_sentiment "NEUTRAL" Examples.a_first);
        set_subjectivity 0.5%float (set_sentiment "POSITIVE" Examples.b_only) ]).
Proof.
  apply (adjust_subjectivity_idempotent [0; 1] Examples.scored).
  reflexivity.
Defined.

(** ** Deduplication, further *)

Lemma unique_articles_Ok_has_link h rs us :
  unique_articles h rs = Ok us → Forall (has_link h) rs.
Proof.
  unfold unique_articles. intros Hrun.
  assert (∃ d', dict_by_link h rs [] = Ok d') as [d' Hd'].
  { destruct (dict_by_link h rs []); [by eexists | done]. }
  clear Hrun. revert Hd'. generalize (@nil (string * nat)).
  induction rs as [|r rs IH]; intros d; [by constructor|].
  rewrite dict_by_link_cons. destruct (link_of h r) as [k|] eqn:Hk; [|done].
  intros Hrun. constructor; [by eexists | by eapply IH].
Qed.

Lemma dict_by_link_result h rs d :
  (∃ d', dict_by_link h rs d = Ok d')
  ∨ dict_by_link h rs d = Raise (KeyError "link").
Proof.
  revert d. induction rs as [|r rs IH]; intros d; [left; by eexists|].
  rewrite dict_by_link_cons. destruct (link_of h r); [apply IH | by right].
Qed.

(** X4. The deduplication returns exactly when every article has a link;
    otherwise it raises [KeyError] for [link], and nothing else. *)
Theorem unique_articles_returns_iff h all_articles :
  (Forall (has_link h) all_articles
   ∧ ∃ us, unique_articles h all_articles = Ok us)
  ∨ (¬ Forall (has_link h) all_articles
     ∧ unique_articles h all_articles = Raise (KeyError "link")).
Proof.
  unfold unique_articles.
  destruct (dict_by_link_result h all_articles []) as [[d Hd]|Hraise].
  - left. split.
    + apply (unique_articles_Ok_has_link h all_articles (dict_values d)).
      unfold unique_articles. by rewrite Hd.
    + rewrite Hd. by eexists.
  - right. rewrite Hraise. split; [|done]. intros Hall.
    destruct (dict_by_link_total h all_articles [] Hall) as [d Hd].
    congruence.
Qed.

(** The second article of the heap has no link. *)
Example unique_articles_partial :
  unique_articles Cases.partial [0; 1; 2; 3] = Raise (KeyError "link").
Proof. reflexivity. Qed.

Lemma first_occurrences_NoDup {A} `{EqDecision A} (l : list A) :
  NoDup l → first_occurrences l = l.
Proof.
  induction 1 as [|x l Hx Hl IH]; simpl; [done|]. rewrite IH. f_equal.
  clear IH Hl. induction l as [|y l IH]; [done|].
  apply not_elem_of_cons in Hx as [Hne Hx].
  rewrite filter_cons_True by done. by rewrite IH.
Qed.

Lemma NoDup_fmap_inj_on {A B} (f : A → B) (l : list A) x y :
  NoDup (f <$> l) → x ∈ l → y ∈ l → f x = f y → x = y.
Proof.
  induction l as [|z l IH]; csimpl; [by intros _ ?%elem_of_nil|].
  intros [Hz Hl]%NoDup_cons [->|Hx]%elem_of_cons [->|Hy]%elem_of_cons Heq;
    [done | | | by apply IH].
  - exfalso. apply Hz. rewrite Heq. by apply list_elem_of_fmap_2.
  - exfalso. apply Hz. rewrite <-Heq. by apply list_elem_of_fmap_2.
Qed.

Lemma fmap_eq_inj_on {A B} (f : A → B) (L l1 l2 : list A) :
  (∀ x y, x ∈ L → y ∈ L → f x = f y → x = y) →
  l1 ⊆ L → l2 ⊆ L → f <$> l1 = f <$> l2 → l1 = l2.
Proof.
  intros Hinj. revert l2. induction l1 as [|x l1 IH]; intros [|y l2] H1 H2;
    csimpl; intros Heq; try done.
  injection Heq as Hxy Heq. f_equal.
  - apply Hinj; [apply H1; by left | apply H2; by left | done].
  - apply IH; [set_solver | set_solver | done].
Qed.

Lemma unique_articles_same_links h rs us :
  unique_articles h rs = Ok us → NoDup (link_of h <$> rs) →
  link_of h <$> us = link_of h <$> rs → us = rs.
Proof.
  intros Hus Hnd Hks.
  apply (fmap_eq_inj_on (link_of h) rs); [| |done|done].
  - intros x y. by apply NoDup_fmap_inj_on.
  - intros u Hu.
    destruct (unique_articles_last h rs us u Hus Hu) as (pre & post & -> & _).
    set_solver.
Qed.

(** X5. A list of articles with pairwise distinct links comes out of the
    deduplication as it went in: same articles, same order. *)
Theorem unique_articles_distinct_links h all_articles :
  Forall (has_link h) all_articles →
  NoDup (link_of h <$> all_articles) →
  unique_articles h all_articles = Ok all_articles.
Proof.
  intros Hall Hnd.
  destruct (unique_articles_links h all_articles Hall) as (us & Hus & Hks).
  rewrite Hus. f_equal.
  apply (unique_articles_same_links h all_articles us); [done..|].
  by rewrite Hks, first_occurrences_NoDup.
Qed.

Lemma unique_articles_distinct_links_witness :
  unique_articles Examples.fetched [1; 2] = Ok [1; 2].
Proof.
  apply (unique_articles_distinct_links Examples.fetched [1; 2]).
  - repeat constructor; by eexists.
  - vm_compute. apply NoDup_cons. split; [|apply NoDup_singleton].
    intros Hin. apply list_elem_of_singleton in Hin. discriminate.
Defined.

(** X6. The deduplication is idempotent, and it never returns more articles
    than it was given. *)
Theorem unique_articles_idempotent h all_articles us :
  unique_articles h all_articles = Ok us →
  unique_articles h us = Ok us ∧ length us ≤ length all_articles.
Proof.
  intros Hus.
  pose proof (unique_articles_Ok_has_link h all_articles us Hus) as Hall.
  destruct (unique_articles_links h all_articles Hall) as (us' & Hus' & Hks).
  rewrite Hus in Hus'. injection Hus' as <-.
  assert (us ⊆ all_articles) as Hsub.
  { intros u Hu.
    destruct (unique_articles_last h all_articles us u Hus Hu)
      as (pre & post & -> & _).
    set_solver. }
  assert (NoDup (link_of h <$> us)) as Hnd
    by (rewrite Hks; apply NoDup_first_occurrences).
  split.
  - destruct (unique_articles_links h us) as (us2 & Hus2 & Hks2).
    { apply Forall_forall. intros u Hu.
      apply (proj1 (Forall_forall _ _) Hall). by apply Hsub. }
    rewrite Hus2. f_equal.
    apply (unique_articles_same_links h us us2); [done..|].
    by rewrite Hks2, first_occurrences_NoDup.
  - apply NoDup_fmap_1 in Hnd. by apply submseteq_length, NoDup_submseteq.
Qed.

Lemma unique_articles_idempotent_witness :
  unique_articles Examples.fetched [2; 1] = Ok [2; 1]
  ∧ length [2; 1] ≤ length [0; 1; 2].
Proof.
  apply (unique_articles_idempotent Examples.fetched [0; 1; 2] [2; 1]).
  reflexivity.
Defined.

(** ** Sorting, further *)

(** X7. The first article without a [published] string makes the sort step
    raise [KeyError] for [published]: no article is compared before every key
    is read. *)
Theorem filter_and_sort_articles_missing_published h pre x post :
  Forall (has_published h) pre → published_of h x = None →
  filter_and_sort_articles h (pre ++ x :: post) = Raise (KeyError "published").
Proof.
  intros Hpre Hx. unfold filter_and_sort_articles.
  by rewrite (published_keys_missing h pre x post Hpre Hx).
Qed.

Lemma filter_and_sort_articles_missing_published_witness :
  filter_and_sort_articles Cases.partial ([0; 1] ++ 2 :: [3])
  = Raise (KeyError "published").
Proof.
  apply (filter_and_sort_articles_missing_published Cases.partial [0; 1] 2 [3]).
  - repeat constructor; by eexists.
  - reflexivity.
Defined.

Lemma string_ltb_irrefl s : String.ltb s s = false.
Proof. unfold String.ltb. by rewrite string_compare_refl. Qed.

Lemma filter_key_insert_desc {V} (k : string) (x : string * V) l :
  filter (λ kv, kv.1 = k) (insert_desc x l) = filter (λ kv, kv.1 = k) (x :: l).
Proof.
  induction l as [|y l IH]; simpl; [done|].
  destruct (String.ltb x.1 y.1) eqn:Hlt; [|done].
  rewrite filter_cons, IH, !(filter_cons _ x), (filter_cons _ y).
  destruct (decide (x.1 = k)) as [Hx|Hx]; [|done].
  assert (y.1 ≠ k) as Hy.
  { intros Hy. rewrite Hx, Hy, string_ltb_irrefl in Hlt. done. }
  by rewrite !decide_False by done.
Qed.

Lemma filter_key_sorted {V} (k : string) (l : list (string * V)) :
  filter (λ kv, kv.1 = k) (foldr insert_desc [] l) = filter (λ kv, kv.1 = k) l.
Proof.
  induction l as [|x l IH]; simpl; [done|].
  by rewrite filter_key_insert_desc, !filter_cons, IH.
Qed.

Lemma filter_keyed_published h k ks :
  keyed_by_published h ks →
  (filter (λ kv, kv.1 = k) ks).*2
  = filter (λ r, published_of h r = Some k) ks.*2.
Proof.
  induction 1 as [|[k' r] ks Hk _ IH]; csimpl; [done|]. simpl in Hk.
  rewrite !filter_cons. simpl. rewrite Hk.
  destruct (decide (k' = k)) as [->|Hne].
  - rewrite decide_True by done. csimpl. by rewrite IH.
  - rewrite decide_False by congruence. done.
Qed.

(** X8. The sort step is stable: the articles that carry the same
    [published] string come out in the order in which they went in. *)
Theorem filter_and_sort_articles_stable h articles :
  Forall (has_published h) articles →
  ∃ sorted_articles,
    filter_and_sort_articles h articles = Ok sorted_articles
    ∧ ∀ k, filter (λ r, published_of h r = Some k) sorted_articles
           = filter (λ r, published_of h r = Some k) articles.
Proof.
  intros Hall.
  destruct (filter_and_sort_articles_keyed h articles Hall)
    as (ks & Hsorted & Hsnd & Hkeyed).
  exists (sorted_reverse ks). split; [done|]. intros k.
  unfold sorted_reverse.
  rewrite <-Hsnd, <-!filter_keyed_published, filter_key_sorted; [done..|].
  unfold keyed_by_published. by rewrite foldr_insert_desc_perm.
Qed.

Lemma filter_and_sort_articles_stable_witness :
  ∃ sorted_articles,
    filter_and_sort_articles Cases.ties [0; 1; 2; 3] = Ok sorted_articles
    ∧ ∀ k, filter (λ r, published_of Cases.ties r = Some k) sorted_articles
           = filter (λ r, published_of Cases.ties r = Some k) [0; 1; 2; 3].
Proof.
  apply (filter_and_sort_articles_stable Cases.ties [0; 1; 2; 3]).
  repeat constructor; by eexists.
Defined.

(** Of the two articles of the same time, the one that came first stays
    first. *)
Example filter_and_sort_articles_ties :
  filter_and_sort_articles Cases.ties [0; 1; 2; 3] = Ok [3; 1; 2; 0].
Proof. reflexivity. Qed.

Lemma insert_desc_ge {V} (x : string * V) l :
  Forall (key_ge x) l → insert_desc x l = x :: l.
Proof.
  destruct 1 as [|y l Hy _]; simpl; [done|].
  unfold key_ge in Hy. unfold String.ltb, String.leb in *.
  rewrite (String.compare_antisym x.1 y.1).
  by destruct (String.compare y.1 x.1).
Qed.

Lemma foldr_insert_desc_sorted_id {V} (l : list (string * V)) :
  StronglySorted key_ge l → foldr insert_desc [] l = l.
Proof.
  induction 1 as [|x l _ IH Hx]; simpl; [done|].
  rewrite IH. by apply insert_desc_ge.
Qed.

(** X9. A list that is already in descending order of [published] comes out
    of the sort step unchanged. *)
Theorem filter_and_sort_articles_sorted_unchanged h articles :
  Forall (has_published h) articles →
  StronglySorted (published_ge h) articles →
  filter_and_sort_articles h articles = Ok articles.
Proof.
  intros Hall Hsorted.
  destruct (filter_and_sort_articles_keyed h articles Hall)
    as (ks & Hrun & Hsnd & Hkeyed).
  rewrite Hrun. f_equal. unfold sorted_reverse.
  rewrite foldr_insert_desc_sorted_id; [done|].
  clear Hrun Hall. revert articles Hsnd Hsorted.
  induction Hkeyed as [|[k r] ks Hk Hks IH]; intros articles Hsnd Hsorted;
    [constructor|].
  csimpl in Hsnd. subst articles. simpl in Hk.
  apply StronglySorted_inv in Hsorted as [Hsorted Hr].
  constructor; [by apply (IH ks.*2)|].
  apply Forall_forall. intros [k' r'] Hin. unfold key_ge. simpl.
  assert (published_ge h r r') as (pa & pb & Ha & Hb & Hle).
  { apply (proj1 (Forall_forall _ _) Hr). by apply (list_elem_of_fmap_2 snd) in Hin. }
  pose proof (proj1 (Forall_forall _ _) Hks _ Hin) as Hk'. simpl in Hk'.
  congruence.
Qed.

Lemma filter_and_sort_articles_sorted_unchanged_witness :
  filter_and_sort_articles Examples.fetched [1; 2; 0] = Ok [1; 2; 0].
Proof.
  apply (filter_and_sort_articles_sorted_unchanged Examples.fetched [1; 2; 0]).
  - repeat constructor; by eexists.
  - repeat constructor; by eexists _, _.
Defined.

(** ** The keyword filter, further *)

Lemma substring_of_empty k : substring_of k "" ↔ k = "".
Proof.
  rewrite <-str_in_spec. simpl. rewrite orb_false_r.
  destruct k; simpl; split; done.
Qed.

Lemma substring_of_nil s : substring_of "" s.
Proof. by exists "", s. Qed.

(** X10. On articles without a [description], which is how [fetch_news]
    makes them, the filter goes by the title alone: it keeps, in order,
    exactly the articles whose title contains a keyword. *)
Theorem filter_articles_by_keywords_title_only h articles keywords :
  Forall (λ r, description (deref h r) = None) articles →
  sublist (filter_articles_by_keywords h articles keywords) articles
  ∧ ∀ r, r ∈ filter_articles_by_keywords h articles keywords ↔
         r ∈ articles ∧ title_mentions h keywords r.
Proof.
  intros Hnone. unfold filter_articles_by_keywords.
  rewrite filter_loop_spec. simpl. split; [apply sublist_List_filter|].
  intros r. rewrite list_elem_of_In, filter_In, <-list_elem_of_In.
  rewrite any_keyword_spec. unfold title_mentions.
  split; intros [Hr (kw & Hkw & Hsub)]; (split; [done|]); exists kw;
    (split; [done|]); [|by left].
  destruct Hsub as [Hsub|Hsub]; [done|].
  unfold get_or_empty in Hsub.
  rewrite (proj1 (Forall_forall _ _) Hnone r Hr) in Hsub. simpl in Hsub.
  apply substring_of_empty in Hsub as ->. apply substring_of_nil.
Qed.

Lemma filter_articles_by_keywords_title_only_witness :
  sublist (filter_articles_by_keywords Examples.fetched [0; 1; 2] keywords_rzd)
    [0; 1; 2]
  ∧ ∀ r, r ∈ filter_articles_by_keywords Examples.fetched [0; 1; 2] keywords_rzd
         ↔ r ∈ [0; 1; 2] ∧ title_mentions Examples.fetched keywords_rzd r.
Proof.
  apply (filter_articles_by_keywords_title_only Examples.fetched [0; 1; 2]
           keywords_rzd).
  repeat constructor.
Defined.

(** An article can be kept for its description alone. *)
Example filter_articles_by_keywords_description :
  filter_articles_by_keywords Cases.with_description [0; 1] keywords_rzd
  = [0; 1].
Proof. reflexivity. Qed.

(** X11. Without keywords the filter keeps nothing; with the empty string
    among the keywords it keeps every article, since the empty string is a
    substring of every title. *)
Theorem filter_articles_by_keywords_edges h articles :
  filter_articles_by_keywords h articles [] = []
  ∧ ∀ keywords, "" ∈ keywords →
      filter_articles_by_keywords h articles keywords = articles.
Proof.
  unfold filter_articles_by_keywords. split.
  - rewrite filter_loop_spec. simpl. by induction articles.
  - intros keywords Hin. rewrite filter_loop_spec. simpl.
    induction articles as [|r rest IH]; simpl; [done|].
    rewrite (proj2 (any_keyword_spec _ _ keywords)); [by rewrite IH|].
    exists "". split; [done|]. left. apply substring_of_nil.
Qed.

Lemma filter_articles_by_keywords_edges_witness :
  filter_articles_by_keywords Examples.fetched [0; 1; 2] [] = []
  ∧ filter_articles_by_keywords Examples.fetched [0; 1; 2] ["РЖД"; ""]
    = [0; 1; 2].
Proof.
  destruct (filter_articles_by_keywords_edges Examples.fetched [0; 1; 2])
    as [Hnone Hall].
  split; [exact Hnone|]. apply Hall. set_solver.
Defined.

(** ** Fetching, further *)

Lemma send_after_retried retries endpoint response k :
  ∀ retries_left n,
    k ≤ retries_left →
    (∀ i, i < k → retried retries (endpoint (n + i))) →
    endpoint (n + k) = Answered response →
    handed_back retries response →
    send retries endpoint retries_left n = Returned response.
Proof.
  induction k as [|k IH]; intros retries_left n Hle Hfail Hresp Hstatus.
  - rewrite Nat.add_0_r in Hresp.
    destruct retries_left; simpl; rewrite Hresp;
      by rewrite is_retry_handed_back.
  - destruct retries_left as [|left]; [lia|].
    assert (send retries endpoint left (S n) = Returned response) as Hrest.
    { apply IH; [lia | | by rewrite Nat.add_succ_comm | done].
      intros i Hi. rewrite Nat.add_succ_comm. apply Hfail. lia. }
    pose proof (Hfail 0 ltac:(lia)) as Hfirst.
    rewrite Nat.add_0_r in Hfirst. simpl.
    destruct Hfirst as [->|(r & -> & Hforce)]; [done|].
    by rewrite is_retry_forcelist.
Qed.

(** X12. Failed connections are retried like the statuses of the force
    list: after at most five attempts that fail in either way, a 200 with
    complete articles is fetched. *)
Theorem fetch_news_succeeds_after_failures api_key net query h k response body arts :
  let self := NewsFetcher_init api_key in
  let url := search_url self query in
  k ≤ 5 →
  (∀ n, n < k → retried (max_retries (session self)) (net url HEADERS n)) →
  net url HEADERS k = Answered response →
  status_code response = 200%Z →
  parsed response = Some body →
  Forall2 (λ r a, project r = Ok a) (default [] (articles body)) arts →
  fetch_news self net query h = Ok (seq (length h) (length arts), h ++ arts).
Proof.
  intros self url Hk Hfail Hresp Hstatus Hbody Harts.
  assert (session_get (session self) net url HEADERS = Returned response)
    as Hget.
  { unfold session_get.
    apply (send_after_retried _ _ _ k); [done|done|done|].
    unfold handed_back, RETRY_AFTER_STATUS_CODES. simpl. rewrite Hstatus.
    set_solver. }
  unfold fetch_news, fetch_news_try. fold self. fold url. rewrite Hget.
  unfold raise_for_status. rewrite Hstatus. simpl.
  unfold response_json. rewrite Hbody. simpl.
  by apply fetched_articles_spec.
Qed.

Lemma fetch_news_succeeds_after_failures_witness :
  fetch_news (NewsFetcher_init "key") Cases.shaky "ВСМ" []
  = Ok ([0; 1], [Examples.a_first; Examples.b_only]).
Proof.
  apply (fetch_news_succeeds_after_failures "key" Cases.shaky "ВСМ" [] 4
           Examples.found Examples.found_body
           [Examples.a_first; Examples.b_only]).
  - lia.
  - intros n Hn. unfold Cases.shaky.
    destruct n as [|[|[|[|n]]]]; simpl; [by left | by left | | | lia];
      right; eexists; (split; [done|]); simpl; set_solver.
  - reflexivity.
  - reflexivity.
  - reflexivity.
  - repeat constructor.
Defined.




Lemma session_get_first s net url headers response :
  net url headers 0 = Answered response →
  handed_back (max_retries s) response →
  session_get s net url headers = Returned response.
Proof.
  intros Hresp Hforce. unfold session_get.
  apply (send_after_retried _ _ _ 0); [lia | | done..]. intros i Hi. lia.
Qed.

(** X14. A first response with a 4xx or 5xx status that the adapter does
    not send again (a status outside the force list, and not a 413, 429 or
    503 that carries [Retry-After]) makes [fetch_news] return the empty list
    and leave the heap as it is. *)
Theorem fetch_news_http_error_empty api_key net query h response :
  let self := NewsFetcher_init api_key in
  net (search_url self query) HEADERS 0 = Answered response →
  (400 ≤ status_code response < 600)%Z →
  status_code response ∉ [500; 502; 503; 504]%Z →
  (retry_after response = true → status_code response ∉ [413; 429; 503]%Z) →
  fetch_news self net query h = Ok ([], h).
Proof.
  intros self Hresp Hrange Hforce Hafter.
  apply (fetch_news_http_error _ _ _ _ response); [|done].
  by apply session_get_first.
Qed.

Lemma fetch_news_http_error_empty_witness :
  fetch_news (NewsFetcher_init "key") Examples.not_found "ВСМ"
    [Examples.a_first] = Ok ([], [Examples.a_first]).
Proof.
  apply (fetch_news_http_error_empty "key" Examples.not_found "ВСМ"
           [Examples.a_first]
           {| status_code := 404; text := "Not Found"; parsed := None;
              retry_after := false |}).
  - reflexivity.
  - simpl. lia.
  - simpl. set_solver.
  - simpl. discriminate.
Defined.

(** X15. When the six attempts that the retries allow are all answered with
    a status of the force list, the request raises, and with it
    [fetch_news]: the handler reads [response], which was never assigned. *)
Theorem fetch_news_exhausted_raises api_key net query h :
  let self := NewsFetcher_init api_key in
  (∀ n, n ≤ 5 →
     ∃ r, net (search_url self query) HEADERS n = Answered r
          ∧ status_code r ∈ [500; 502; 503; 504]%Z) →
  fetch_news self net query h = Raise (UnboundLocalError "response").
Proof.
  intros self Hfail. apply (fetch_news_raised _ _ _ _ RetryError).
  unfold session_get. apply send_exhausted. simpl. intros i Hi.
  by apply Hfail.
Qed.

Lemma fetch_news_exhausted_raises_witness :
  fetch_news (NewsFetcher_init "key") Cases.always_unavailable "ВСМ" []
  = Raise (UnboundLocalError "response").
Proof.
  apply (fetch_news_exhausted_raises "key" Cases.always_unavailable "ВСМ" []).
  intros n Hn. exists Examples.unavailable. split; [done|]. simpl. set_solver.
Defined.

(** X16. A response that passes [raise_for_status] and whose body has no
    [articles], or an empty array, gives the empty list and leaves the heap
    as it is. *)
Theorem fetch_news_no_articles api_key net query h response body :
  let self := NewsFetcher_init api_key in
  net (search_url self query) HEADERS 0 = Answered response →
  ¬ (400 ≤ status_code response < 600)%Z →
  parsed response = Some body →
  articles body = None ∨ articles body = Some [] →
  fetch_news self net query h = Ok ([], h).
Proof.
  intros self Hresp Hstatus Hbody Hnone.
  assert (session_get (session self) net (search_url self query) HEADERS
          = Returned response) as Hget.
  { apply session_get_first; [done|].
    unfold handed_back, RETRY_AFTER_STATUS_CODES. simpl.
    split; [|intros _]; intros Hin; apply Hstatus; set_solver by lia. }
  unfold fetch_news, fetch_news_try. rewrite Hget.
  unfold raise_for_status. rewrite bool_decide_eq_false_2 by done.
  unfold response_json. rewrite Hbody. simpl.
  by destruct Hnone as [->| ->].
Qed.

Lemma fetch_news_no_articles_witness :
  fetch_news (NewsFetcher_init "key") Cases.no_articles "ВСМ"
    [Examples.a_first] = Ok ([], [Examples.a_first]).
Proof.
  apply (fetch_news_no_articles "key" Cases.no_articles "ВСМ" [Examples.a_first]
           {| status_code := 200; text := "{}";
              parsed := Some {| articles := None |};
              retry_after := false |}
           {| articles := None |}).
  - reflexivity.
  - simpl. lia.
  - reflexivity.
  - by left.
Defined.

Lemma project_complete r : complete_raw r → ∃ a, project r = Ok a.
Proof.
  intros ([t Ht] & [u Hu] & [p Hp]). unfold project. rewrite Ht, Hu, Hp.
  by eexists.
Qed.

Lemma fetched_articles_raise pre a post h e :
  Forall complete_raw pre → project a = Raise e →
  fetched_articles (pre ++ a :: post) h = Raise e.
Proof.
  intros Hpre Ha. revert h.
  induction Hpre as [|r pre Hr _ IH]; intros h; simpl.
  - by rewrite Ha.
  - destruct (project_complete r Hr) as [d ->]. simpl. by rewrite IH.
Qed.

(** X17. The first raw article of a fetched body that lacks [title], [url]
    or [publishedAt] makes [fetch_news] raise [KeyError] for the first of
    the three that is missing. *)
Theorem fetch_news_incomplete_article api_key net query h response body pre a post :
  let self := NewsFetcher_init api_key in
  net (search_url self query) HEADERS 0 = Answered response →
  ¬ (400 ≤ status_code response < 600)%Z →
  parsed response = Some body →
  articles body = Some (pre ++ a :: post) →
  Forall complete_raw pre →
  ¬ complete_raw a →
  fetch_news self net query h =
    Raise (KeyError
      (if raw_title a is None then "title"
       else if raw_url a is None then "url" else "publishedAt")).
Proof.
  intros self Hresp Hstatus Hbody Harts Hpre Ha.
  assert (session_get (session self) net (search_url self query) HEADERS
          = Returned response) as Hget.
  { apply session_get_first; [done|].
    unfold handed_back, RETRY_AFTER_STATUS_CODES. simpl.
    split; [|intros _]; intros Hin; apply Hstatus; set_solver by lia. }
  unfold fetch_news, fetch_news_try. rewrite Hget.
  unfold raise_for_status. rewrite bool_decide_eq_false_2 by done.
  unfold response_json. rewrite Hbody. simpl. rewrite Harts. simpl.
  apply fetched_articles_raise; [done|]. unfold project.
  destruct (raw_title a) as [t|] eqn:Ht; [|done].
  destruct (raw_url a) as [u|] eqn:Hu; [|done].
  destruct (raw_publishedAt a) as [p|] eqn:Hp; [|done].
  exfalso. apply Ha. unfold complete_raw. rewrite Ht, Hu, Hp. by split_and!.
Qed.

Lemma fetch_news_incomplete_article_witness :
  fetch_news (NewsFetcher_init "key") Cases.incomplete "ВСМ" []
  = Raise (KeyError "url").
Proof.
  apply (fetch_news_incomplete_article "key" Cases.incomplete "ВСМ" []
           {| status_code := 200; text := "";
              parsed := Some Cases.incomplete_body;
              retry_after := false |}
           Cases.incomplete_body
           [ {| raw_title := Some "Old title"; raw_url := Some "A";
                raw_publishedAt := Some "2024-01-01T00:00:00Z" |} ]
           {| raw_title := Some "No address"; raw_url := None;
              raw_publishedAt := Some "2024-01-02T00:00:00Z" |} []).
  - reflexivity.
  - simpl. lia.
  - reflexivity.
  - reflexivity.
  - repeat constructor; by eexists.
  - intros (_ & [u Hu] & _). discriminate.
Defined.

Lemma fetched_articles_just_fetched raw h rs h' :
  fetched_articles raw h = Ok (rs, h') →
  ∃ new, h' = h ++ new ∧ rs = seq (length h) (length new)
    ∧ Forall just_fetched new.
Proof.
  revert h rs h'. induction raw as [|a rest IH]; intros h rs h'; simpl.
  - intros [= <- <-]. exists []. by rewrite app_nil_r.
  - destruct (project a) as [d|] eqn:Hd; [|done]. simpl.
    destruct (fetched_articles rest (h ++ [d])) as [[rs2 h2]|] eqn:Hrest;
      [|done].
    simpl. intros [= <- <-].
    destruct (IH _ _ _ Hrest) as (new & -> & -> & Hnew).
    exists (d :: new). split_and!.
    + by rewrite <-(assoc_L (++)).
    + by rewrite length_app, Nat.add_1_r.
    + constructor; [|done]. apply project_Ok in Hd as (-> & ? & ? & ?).
      by split_and!.
Qed.

Lemma fetch_news_just_fetched self net query h rs h' :
  fetch_news self net query h = Ok (rs, h') →
  ∃ new, h' = h ++ new ∧ rs = seq (length h) (length new)
    ∧ Forall just_fetched new.
Proof.
  unfold fetch_news.
  destruct (fetch_news_try self net (search_url self query))
    as [[response|] [e|]]; try done.
  - intros [= <- <-]. exists []. by rewrite app_nil_r.
  - destruct (response_json response) as [body|]; [|done]. simpl.
    apply fetched_articles_just_fetched.
Qed.

Lemma deref_app_l h new r : r < length h → deref (h ++ new) r = deref h r.
Proof.
  intros Hr. unfold deref. by rewrite lookup_total_app_l.
Qed.

Lemma deref_app_r h new r :
  length h ≤ r → deref (h ++ new) r = deref new (r - length h).
Proof.
  intros Hr. unfold deref. by rewrite lookup_total_app_r.
Qed.

(** X18. Whenever [fetch_news] returns, on any session and endpoint, the
    dicts that the heap held are untouched, the references it returns are
    new, pairwise different, and each of them is a dict with [title], [link]
    and [published] and no other key. *)
Theorem fetch_news_fresh self net query h rs h' :
  fetch_news self net query h = Ok (rs, h') →
  (∀ r, r < length h → deref h' r = deref h r)
  ∧ NoDup rs
  ∧ Forall (λ r, length h ≤ r < length h' ∧ just_fetched (deref h' r)) rs.
Proof.
  intros (new & -> & -> & Hnew)%fetch_news_just_fetched. split_and!.
  - intros r Hr. by apply deref_app_l.
  - apply NoDup_seq.
  - apply Forall_forall. intros r Hr%elem_of_seq. rewrite length_app.
    split; [lia|]. rewrite deref_app_r by lia. unfold deref.
    destruct (lookup_lt_is_Some_2 new (r - length h)) as [a Ha]; [lia|].
    rewrite (list_lookup_total_correct _ _ _ Ha).
    by apply (Forall_lookup_1 _ _ _ _ Hnew Ha).
Qed.

Lemma fetch_news_fresh_witness :
  (∀ r, r < length [Examples.a_last] →
        deref [Examples.a_last; Examples.a_first; Examples.b_only] r
        = deref [Examples.a_last] r)
  ∧ NoDup [1; 2]
  ∧ Forall (λ r, length [Examples.a_last] ≤ r
                 < length [Examples.a_last; Examples.a_first; Examples.b_only]
               ∧ just_fetched
                   (deref [Examples.a_last; Examples.a_first; Examples.b_only] r))
      [1; 2].
Proof.
  apply (fetch_news_fresh (NewsFetcher_init "key") Examples.flaky "ВСМ"
           [Examples.a_last] [1; 2]
           [Examples.a_last; Examples.a_first; Examples.b_only]).
  reflexivity.
Defined.

(** ** The URL *)

Lemma hex_digit_elem n :
  hex_digit n ∈ list_ascii_of_string "0123456789ABCDEF".
Proof.
  unfold hex_digit.
  destruct (list_ascii_of_string "0123456789ABCDEF" !! n) as [c|] eqn:Hc.
  - by apply list_elem_of_lookup_2 in Hc.
  - simpl. set_solver.
Qed.

Lemma quote_url_chars s : Forall url_char (list_ascii_of_string (quote s)).
Proof.
  induction s as [|c s IH]; simpl; [constructor|].
  destruct (is_safe c) eqn:Hc; simpl.
  - constructor; [by left | done].
  - constructor; [by right; left|].
    constructor; [right; right; apply hex_digit_elem|].
    constructor; [right; right; apply hex_digit_elem | done].
Qed.

(** X19. Whatever the query, its quoted form consists of kept characters,
    [%] and hexadecimal digits; so it holds no [&], [=], [?], [#] or space,
    and the [apiKey] parameter of the URL stays apart from it.  A query of
    kept characters is quoted as itself. *)
Theorem quote_url_safe query :
  Forall url_char (list_ascii_of_string (quote query))
  ∧ (∀ c, c ∈ ["&"; "="; "?"; "#"; " "]%char →
          c ∉ list_ascii_of_string (quote query))
  ∧ (Forall (λ c, is_safe c = true) (list_ascii_of_string query) →
     quote query = query).
Proof.
  split_and!.
  - apply quote_url_chars.
  - intros c Hc Hin.
    pose proof (proj1 (Forall_forall _ _) (quote_url_chars query) c Hin) as Hurl.
    unfold url_char in Hurl.
    repeat (apply elem_of_cons in Hc as [->|Hc]);
      try (by apply elem_of_nil in Hc);
      (destruct Hurl as [Hs|[Hp|Hh]]; [by vm_compute in Hs | done |]);
      revert Hh; simpl; set_solver.
  - induction query as [|c s IH]; simpl; [done|].
    intros [Hc Hs]%Forall_cons. rewrite Hc. by rewrite IH.
Qed.

Lemma quote_url_safe_witness : quote "v2/news-2024_a.b~c" = "v2/news-2024_a.b~c".
Proof.
  destruct (quote_url_safe "v2/news-2024_a.b~c") as (_ & _ & Hid).
  apply Hid. repeat constructor.
Defined.

(** ** The dashboard, further *)

Lemma join_strings_nil_r s : s +:+ "" = s.
Proof. induction s as [|c s IH]; [done|]. by rewrite append_String, IH. Qed.

(** X20. For entries that carry the five keys it reads, [create_dashboard]
    returns the header, the list item of every entry in the order of the
    entries (a link to the article, coloured green, red or gray by its
    sentiment, with its title, date, sentiment and subjectivity with two
    decimals), and the footer; without entries, the header and the
    footer. *)
Theorem create_dashboard_items format_2f h data :
  Forall (renderable h) data →
  ∃ items,
    length items = length data
    ∧ Forall2 (list_item_of format_2f h) data items
    ∧ create_dashboard format_2f h data
      = Ok (dashboard_header +:+ join_strings items +:+ dashboard_footer)
    ∧ create_dashboard format_2f h []
      = Ok (dashboard_header +:+ dashboard_footer).
Proof.
  intros Hall.
  assert (∃ items,
    Forall2 (λ r item, dashboard_item format_2f h r = Ok item) data items)
    as [items Hitems].
  { induction Hall as [|r data (Ht & Hl & Hp & Hs & Hx) _ [items IH]].
    - by exists [].
    - destruct (dashboard_item_total format_2f h r) as [item Hitem]; try done.
      exists (item :: items). by constructor. }
  exists items. split_and!; [| | |done].
  - symmetry. by eapply Forall2_length.
  - eapply Forall2_impl; [done|]. intros r item.
    apply dashboard_item_list_item.
  - unfold create_dashboard.
    rewrite (dashboard_loop_spec _ _ _ _ _ Hitems). simpl.
    by rewrite append_assoc.
Qed.

Lemma create_dashboard_items_witness :
  ∃ items,
    length items = length [1; 0]
    ∧ Forall2 (list_item_of Examples.two_decimals Examples.scored) [1; 0] items
    ∧ create_dashboard Examples.two_decimals Examples.scored [1; 0]
      = Ok (dashboard_header +:+ join_strings items +:+ dashboard_footer)
    ∧ create_dashboard Examples.two_decimals Examples.scored []
      = Ok (dashboard_header +:+ dashboard_footer).
Proof.
  apply (create_dashboard_items Examples.two_decimals Examples.scored [1; 0]).
  repeat constructor; by eexists.
Defined.

(** The item of a positive article is green and shows the score with two
    decimals. *)
Example dashboard_item_positive :
  dashboard_item Examples.two_decimals Examples.scored 1
  = Ok ("<li><a href='B' style='color:green'>РЖД строит ВСМ</a>"
        +:+ " - 2024-03-01T00:00:00Z (Настроение: POSITIVE,"
        +:+ " Субъективность: 0.50)</li>").
Proof. reflexivity. Qed.

Lemma dashboard_loop_unscored format_2f h pre entry post dashboard :
  Forall (renderable h) pre → sentiment_of h entry = None →
  dashboard_loop format_2f h (pre ++ entry :: post) dashboard
  = Raise (KeyError "sentiment").
Proof.
  intros Hpre Hentry. revert dashboard.
  induction Hpre as [|r pre (Ht & Hl & Hp & Hs & Hx) _ IH]; intros dashboard;
    simpl.
  - unfold dashboard_item, getitem. unfold sentiment_of in Hentry.
    by rewrite Hentry.
  - destruct (dashboard_item_total format_2f h r) as [item ->]; try done.
    simpl. apply IH.
Qed.

(** X21. An entry that was never scored makes [create_dashboard] raise
    [KeyError] for [sentiment]: the first key it reads of an entry. *)
Theorem create_dashboard_unscored format_2f h pre entry post :
  Forall (renderable h) pre → sentiment_of h entry = None →
  create_dashboard format_2f h (pre ++ entry :: post)
  = Raise (KeyError "sentiment").
Proof.
  intros Hpre Hentry. unfold create_dashboard.
  by rewrite (dashboard_loop_unscored _ _ _ _ _ _ Hpre Hentry).
Qed.

Lemma create_dashboard_unscored_witness :
  create_dashboard Examples.two_decimals
    (Examples.scored ++ [Examples.a_last]) ([0] ++ 2 :: [1])
  = Raise (KeyError "sentiment").
Proof.
  apply (create_dashboard_unscored Examples.two_decimals
           (Examples.scored ++ [Examples.a_last]) [0] 2 [1]).
  - repeat constructor; by eexists.
  - reflexivity.
Defined.

(** ** The run of [main], further *)

Lemma send_all_retried retries endpoint :
  ∀ retries_left n,
    (∀ i, i ≤ retries_left → retried retries (endpoint (n + i))) →
    ∃ e, send retries endpoint retries_left n = Raised e.
Proof.
  induction retries_left as [|left IH]; intros n Hfail;
    pose proof (Hfail 0 ltac:(lia)) as Hfirst;
    rewrite Nat.add_0_r in Hfirst; simpl.
  - destruct Hfirst as [->|(r & -> & Hforce)]; [by eexists|].
    rewrite is_retry_forcelist by done. by eexists.
  - destruct (IH (S n)) as [e He].
    { intros i Hi. rewrite Nat.add_succ_comm. apply Hfail. lia. }
    destruct Hfirst as [->|(r & -> & Hforce)]; [by eexists|].
    rewrite is_retry_forcelist by done. by eexists.
Qed.

Lemma fetch_news_all_retried api_key net query h :
  (∀ n, n ≤ 5 →
     retried (max_retries (session (NewsFetcher_init api_key)))
       (net (search_url (NewsFetcher_init api_key) query) HEADERS n)) →
  fetch_news (NewsFetcher_init api_key) net query h
  = Raise (UnboundLocalError "response").
Proof.
  intros Hfail.
  destruct (send_all_retried
              (max_retries (session (NewsFetcher_init api_key)))
              (net (search_url (NewsFetcher_init api_key) query) HEADERS) 5 0)
    as [e He]; [done|].
  by apply (fetch_news_raised _ _ _ _ e).
Qed.

(** X22. One query is enough to end the run: when the six attempts at the
    URL of any of the three queries all fail, by a failed connection or a
    status of the force list, [main] raises. *)
Theorem main_aborts_when_unreachable format_2f api_key model net fs query :
  let self := {| fetcher := NewsFetcher_init api_key;
                 sentiment_model := model |} in
  query ∈ queries →
  (∀ n, n ≤ 5 →
     retried (max_retries (session (fetcher self)))
       (net (search_url (fetcher self) query) HEADERS n)) →
  ∃ e, main format_2f self net fs = Raise e.
Proof.
  intros self Hq Hfail. unfold main, main_collect.
  unfold fetch_vish_news, fetch_high_speed_railways, fetch_russian_railways.
  pose proof (λ h, fetch_news_all_retried api_key net query h Hfail) as Hraise.
  unfold queries in Hq.
  repeat (apply elem_of_cons in Hq as [->|Hq]);
    [| | |by apply elem_of_nil in Hq]; simpl.
  - rewrite Hraise. by eexists.
  - destruct (fetch_news _ net "Высшая инженерная школа" [])
      as [[vish h1]|e]; simpl; [|by eexists].
    rewrite Hraise. by eexists.
  - destruct (fetch_news _ net "Высшая инженерная школа" [])
      as [[vish h1]|e]; simpl; [|by eexists].
    destruct (fetch_news _ net "ВСМ" h1) as [[hs h2]|e]; simpl; [|by eexists].
    rewrite Hraise. by eexists.
Qed.

Lemma main_aborts_when_unreachable_witness :
  ∃ e, main Examples.two_decimals
         {| fetcher := NewsFetcher_init "key";
            sentiment_model := Examples.classifier |}
         (λ url headers n,
            if String.eqb url (search_url (NewsFetcher_init "key") "ВСМ")
            then ConnectionFailed else Examples.flaky url headers n)
         ∅ = Raise e.
Proof.
  apply (main_aborts_when_unreachable Examples.two_decimals "key"
           Examples.classifier
           (λ url headers n,
              if String.eqb url (search_url (NewsFetcher_init "key") "ВСМ")
              then ConnectionFailed else Examples.flaky url headers n)
           ∅ "ВСМ").
  - unfold queries. set_solver.
  - intros n Hn. left. by rewrite String.eqb_refl.
Defined.

(** X23. When each of the three queries is answered at once with a 4xx or
    5xx status that the adapter does not send again (outside the force list,
    and not a 413, 429 or 503 that carries [Retry-After]), [main] completes
    on nothing: the report has its six members, each an empty array, and the
    dashboard is the header followed by the footer. *)
Theorem main_all_http_errors format_2f api_key model net fs :
  let self := {| fetcher := NewsFetcher_init api_key;
                 sentiment_model := model |} in
  (∀ query, query ∈ queries →
     ∃ r, net (search_url (fetcher self) query) HEADERS 0 = Answered r
          ∧ (400 ≤ status_code r < 600)%Z
          ∧ (status_code r ∉ [500; 502; 503; 504]%Z)
          ∧ (retry_after r = true → status_code r ∉ [413; 429; 503]%Z)) →
  main format_2f self net fs =
    Ok (<["news_dashboard.html" :=
            TextFile (dashboard_header +:+ dashboard_footer)]>
        (<["all_articles.json" := JsonFile (JObject
            [ ("unique_articles", JArray []);
              ("analyzed_articles", JArray []);
              ("filtered_vish", JArray []);
              ("filtered_high_speed", JArray []);
              ("filtered_rzd", JArray []);
              ("final_articles", JArray []) ])]> fs)).
Proof.
  intros self Hnet.
  assert (∀ query, query ∈ queries →
            fetch_news (NewsFetcher_init api_key) net query [] = Ok ([], []))
    as Hfetch.
  { intros query Hq.
    destruct (Hnet query Hq) as (r & Hr & Hrange & Hforce & Hafter).
    apply (fetch_news_http_error _ _ _ _ r); [|done].
    by apply session_get_first. }
  unfold main, main_collect.
  unfold fetch_vish_news, fetch_high_speed_railways, fetch_russian_railways.
  simpl fetcher.
  rewrite Hfetch by (unfold queries; set_solver). cbn [bind].
  rewrite Hfetch by (unfold queries; set_solver). cbn [bind].
  rewrite Hfetch by (unfold queries; set_solver). reflexivity.
Qed.

Lemma main_all_http_errors_witness :
  main Examples.two_decimals
    {| fetcher := NewsFetcher_init "key";
       sentiment_model := Examples.classifier |}
    Examples.not_found ∅ =
    Ok (<["news_dashboard.html" :=
            TextFile (dashboard_header +:+ dashboard_footer)]>
        (<["all_articles.json" := JsonFile (JObject
            [ ("unique_articles", JArray []);
              ("analyzed_articles", JArray []);
              ("filtered_vish", JArray []);
              ("filtered_high_speed", JArray []);
              ("filtered_rzd", JArray []);
              ("final_articles", JArray []) ])]> ∅)).
Proof.
  apply (main_all_http_errors Examples.two_decimals "key" Examples.classifier
           Examples.not_found ∅).
  intros query _. eexists. split; [reflexivity|]. simpl. split; [lia|].
  split; [set_solver | discriminate].
Defined.

(** X24. When the three fetches return, [main] writes its two files and no
    other: every other file of the directory is as it was.  In particular
    [read_json], which reads [results.json], finds after the run what it
    found before, and no report where there was none. *)
Theorem main_writes_two_files format_2f json_loads self net fs h all_articles :
  fetches self net h all_articles →
  ∃ fs', main format_2f self net fs = Ok fs'
    ∧ dom fs' = {["all_articles.json"; "news_dashboard.html"]} ∪ dom fs
    ∧ (∀ name, name ≠ "all_articles.json" → name ≠ "news_dashboard.html" →
               fs' !! name = fs !! name)
    ∧ read_json json_loads fs' = read_json json_loads fs
    ∧ (fs !! "results.json" = None →
       read_json json_loads fs' = ReadRaise FileNotFoundError).
Proof.
  intros Hfetch.
  destruct (main_spec format_2f self net fs h all_articles Hfetch)
    as (m & items & _ & Hmain & _).
  eexists. split; [exact Hmain|]. unfold save_dashboard, save_to_json.
  assert (∀ name, name ≠ "all_articles.json" → name ≠ "news_dashboard.html" →
    <["news_dashboard.html" :=
        TextFile (dashboard_header +:+ join_strings items +:+ dashboard_footer)]>
      (<["all_articles.json" := JsonFile (JObject
           (prod_map id (json_of_articles (m_heap m)) <$> report m))]> fs)
      !! name = fs !! name) as Hframe.
  { intros name H1 H2. by rewrite !lookup_insert_ne. }
  assert (∀ fs1 fs2 : gmap string file,
            fs1 !! "results.json" = fs2 !! "results.json" →
            read_json json_loads fs1 = read_json json_loads fs2) as Hread.
  { intros fs1 fs2 Heq. unfold read_json. by rewrite Heq. }
  split_and!.
  - rewrite !dom_insert_L. set_solver.
  - done.
  - by apply Hread, Hframe.
  - intros Hnone. rewrite (Hread _ fs) by (by apply Hframe).
    unfold read_json. by rewrite Hnone.
Qed.

Lemma main_writes_two_files_witness :
  ∃ fs', main Examples.two_decimals Examples.parser Examples.flaky Cases.older
         = Ok fs'
    ∧ dom fs' = {["all_articles.json"; "news_dashboard.html"]} ∪ dom Cases.older
    ∧ (∀ name, name ≠ "all_articles.json" → name ≠ "news_dashboard.html" →
               fs' !! name = Cases.older !! name)
    ∧ read_json Cases.no_json fs' = read_json Cases.no_json Cases.older
    ∧ (Cases.older !! "results.json" = None →
       read_json Cases.no_json fs' = ReadRaise FileNotFoundError).
Proof.
  apply (main_writes_two_files Examples.two_decimals Cases.no_json
           Examples.parser Examples.flaky Cases.older
           Examples.fetched_thrice (seq 0 6)).
  unfold fetches. eexists _, _, _, _, _. split_and!; reflexivity.
Defined.

(** What [read_json] finds in the directory of the examples, before and
    after a run. *)
Example read_json_older :
  read_json Cases.no_json Cases.older = Read (JArray [JString "older"]).
Proof. reflexivity. Qed.

Lemma fetches_just_fetched self net h all_articles :
  fetches self net h all_articles → Forall just_fetched h.
Proof.
  intros (vish & h1 & hs & h2 & rzd & Hv & Hh & Hr & ->).
  apply fetch_news_just_fetched in Hv as (new1 & -> & -> & Hnew1).
  apply fetch_news_just_fetched in Hh as (new2 & -> & -> & Hnew2).
  apply fetch_news_just_fetched in Hr as (new3 & -> & -> & Hnew3).
  by rewrite !Forall_app.
Qed.

(** X25. The scoring never reaches an article that the deduplication has
    superseded: when the three fetches return, every fetched article that is
    not in [unique_articles] is in the final heap as it was fetched, with
    [title], [link] and [published] and neither sentiment nor
    subjectivity. *)
Theorem main_superseded_unscored self net h all_articles :
  fetches self net h all_articles →
  ∃ m, main_collect self net = Ok m
    ∧ ∀ r, r ∈ all_articles → r ∉ m_unique_articles m →
        deref (m_heap m) r = deref h r ∧ just_fetched (deref (m_heap m) r).
Proof.
  intros Hfetch.
  destruct (main_collect_spec self net h all_articles Hfetch)
    as (us & sorted_articles & h' & _ & _ & Hm & _ & Hperm & _ & Hd).
  eexists. split; [exact Hm|]. simpl. intros r Hr Hnot.
  assert (deref h' r = deref h r) as Heq.
  { rewrite Hd, decide_False; [done|]. by rewrite Hperm. }
  split; [done|]. rewrite Heq.
  destruct (fetches_inv _ _ _ _ Hfetch) as [-> _].
  apply elem_of_seq in Hr. unfold deref.
  destruct (lookup_lt_is_Some_2 h r) as [a Ha]; [lia|].
  rewrite (list_lookup_total_correct _ _ _ Ha).
  by apply (Forall_lookup_1 _ _ _ _ (fetches_just_fetched _ _ _ _ Hfetch) Ha).
Qed.

Lemma main_superseded_unscored_witness :
  ∃ m, main_collect Examples.parser Examples.flaky = Ok m
    ∧ ∀ r, r ∈ seq 0 6 → r ∉ m_unique_articles m →
        deref (m_heap m) r = deref Examples.fetched_thrice r
        ∧ just_fetched (deref (m_heap m) r).
Proof.
  apply (main_superseded_unscored Examples.parser Examples.flaky
           Examples.fetched_thrice (seq 0 6)).
  unfold fetches. eexists _, _, _, _, _. split_and!; reflexivity.
Defined.

Lemma StronglySorted_sublist {A} (R : relation A) (l1 l2 : list A) :
  sublist l1 l2 → StronglySorted R l2 → StronglySorted R l1.
Proof.
  induction 1 as [|x l1 l2 Hsub IH|x l1 l2 Hsub IH]; intros Hsorted;
    [done| |].
  - apply StronglySorted_inv in Hsorted as [Hsorted Hx].
    constructor; [by apply IH|].
    apply Forall_forall. intros y Hy.
    apply (proj1 (Forall_forall _ _) Hx). by eapply elem_of_sublist.
  - apply StronglySorted_inv in Hsorted as [Hsorted _]. by apply IH.
Qed.

Lemma StronglySorted_mono {A} (R1 R2 : relation A) (l : list A) :
  (∀ a b, R1 a b → R2 a b) → StronglySorted R1 l → StronglySorted R2 l.
Proof.
  intros Himpl. induction 1 as [|x l _ IH Hx]; constructor; [done|].
  eapply Forall_impl; [done|]. intros y. apply Himpl.
Qed.

(** X26. When the three fetches return, [analyzed_articles] and each of the
    three filtered lists of the report are in descending order of
    [published]: the filters keep the order of the sort. *)
Theorem main_lists_sorted self net h all_articles :
  fetches self net h all_articles →
  ∃ m, main_collect self net = Ok m
    ∧ Forall (StronglySorted (published_ge (m_heap m)))
        [ m_analyzed_articles m; m_filtered_vish m;
          m_filtered_high_speed m; m_filtered_rzd m ].
Proof.
  intros Hfetch.
  destruct (main_collect_spec self net h all_articles Hfetch)
    as (us & sorted_articles & h' & _ & Hsort & Hm & _ & Hperm & Hfresh & Hd).
  eexists. split; [exact Hm|]. simpl.
  assert (StronglySorted (published_ge h) sorted_articles) as Hsorted.
  { destruct (filter_and_sort_articles_keyed h us)
      as (ks & Hrun & Hsnd & Hkeyed).
    { eapply Forall_impl; [done|]. by intros r (_ & _ & ?). }
    rewrite Hsort in Hrun. injection Hrun as ->. unfold sorted_reverse.
    apply keyed_sorted_published_ge; [|apply foldr_insert_desc_sorted].
    unfold keyed_by_published. by rewrite foldr_insert_desc_perm. }
  assert (StronglySorted (published_ge h') sorted_articles) as Hsorted'.
  { assert (∀ r, published_of h' r = published_of h r) as Hpub.
    { intros r. unfold published_of. rewrite Hd. case_decide; [|done].
      by destruct (frame_adjusted_analyzed self (deref h r))
        as (_ & _ & -> & _). }
    eapply StronglySorted_mono; [|done].
    intros a b (pa & pb & Ha & Hb & Hle). exists pa, pb.
    by rewrite !Hpub. }
  assert (∀ kws, sublist (filter_articles_by_keywords h' sorted_articles kws)
                   sorted_articles) as Hsub.
  { intros kws. unfold filter_articles_by_keywords.
    rewrite filter_loop_spec. apply sublist_List_filter. }
  assert (∀ kws, StronglySorted (published_ge h')
                   (filter_articles_by_keywords h' sorted_articles kws))
    as Hfiltered.
  { intros kws. by apply (StronglySorted_sublist _ _ sorted_articles). }
  constructor; [done|]. constructor; [apply Hfiltered|].
  constructor; [apply Hfiltered|]. constructor; [apply Hfiltered|].
  constructor.
Qed.

Lemma main_lists_sorted_witness :
  ∃ m, main_collect Examples.parser Examples.flaky = Ok m
    ∧ Forall (StronglySorted (published_ge (m_heap m)))
        [ m_analyzed_articles m; m_filtered_vish m;
          m_filtered_high_speed m; m_filtered_rzd m ].
Proof.
  apply (main_lists_sorted Examples.parser Examples.flaky
           Examples.fetched_thrice (seq 0 6)).
  unfold fetches. eexists _, _, _, _, _. split_and!; reflexivity.
Defined.




(** ** [Retry-After] *)

Lemma is_retry_after retries retries_left response :
  retry_after response = true →
  status_code response ∈ RETRY_AFTER_STATUS_CODES →
  is_retry retries (S retries_left) response = true.
Proof.
  intros Hafter Hstatus. unfold is_retry. rewrite Hafter. simpl.
  rewrite (bool_decide_eq_true_2 (status_code response ∈ RETRY_AFTER_STATUS_CODES))
    by done.
  apply orb_true_r.
Qed.

Lemma send_after_resent retries endpoint response k :
  ∀ retries_left n,
    k ≤ retries_left →
    (∀ i, i < k → resent retries (endpoint (n + i))) →
    endpoint (n + k) = Answered response →
    is_retry retries (retries_left - k) response = false →
    send retries endpoint retries_left n = Returned response.
Proof.
  induction k as [|k IH]; intros retries_left n Hle Hfail Hresp Hstatus.
  - rewrite Nat.add_0_r in Hresp. rewrite Nat.sub_0_r in Hstatus.
    destruct retries_left; simpl; rewrite Hresp; by rewrite Hstatus.
  - destruct retries_left as [|left]; [lia|].
    assert (send retries endpoint left (S n) = Returned response) as Hrest.
    { apply IH; [lia | | by rewrite Nat.add_succ_comm | done].
      intros i Hi. rewrite Nat.add_succ_comm. apply Hfail. lia. }
    pose proof (Hfail 0 ltac:(lia)) as Hfirst.
    rewrite Nat.add_0_r in Hfirst. simpl send.
    destruct Hfirst as [[->|(r & -> & Hforce)]|(r & -> & Hafter & Hcode)];
      [done | by rewrite is_retry_forcelist | by rewrite is_retry_after].
Qed.

(** X28. An answer 413, 429 or 503 that carries [Retry-After] is sent again
    like a failed attempt: after at most five attempts that are sent again,
    a 200 with complete articles is fetched. *)
Theorem fetch_news_after_retry_after api_key net query h k response body arts :
  let self := NewsFetcher_init api_key in
  let url := search_url self query in
  k ≤ 5 →
  (∀ n, n < k → resent (max_retries (session self)) (net url HEADERS n)) →
  net url HEADERS k = Answered response →
  status_code response = 200%Z →
  parsed response = Some body →
  Forall2 (λ r a, project r = Ok a) (default [] (articles body)) arts →
  fetch_news self net query h = Ok (seq (length h) (length arts), h ++ arts).
Proof.
  intros self url Hk Hfail Hresp Hstatus Hbody Harts.
  assert (session_get (session self) net url HEADERS = Returned response)
    as Hget.
  { unfold session_get.
    apply (send_after_resent _ _ _ k); [done|done|done|].
    apply is_retry_handed_back.
    unfold handed_back, RETRY_AFTER_STATUS_CODES. simpl. rewrite Hstatus.
    set_solver. }
  unfold fetch_news, fetch_news_try. fold self. fold url. rewrite Hget.
  unfold raise_for_status. rewrite Hstatus. simpl.
  unfold response_json. rewrite Hbody. simpl.
  by apply fetched_articles_spec.
Qed.

Lemma fetch_news_after_retry_after_witness :
  fetch_news (NewsFetcher_init "key") Cases.throttled_twice "ВСМ" []
  = Ok ([0; 1], [Examples.a_first; Examples.b_only]).
Proof.
  apply (fetch_news_after_retry_after "key" Cases.throttled_twice "ВСМ" [] 2
           Examples.found Examples.found_body
           [Examples.a_first; Examples.b_only]).
  - lia.
  - intros n Hn. right. exists Cases.throttled. split_and!.
    + unfold Cases.throttled_twice. by rewrite (proj2 (Nat.ltb_lt n 2) Hn).
    + reflexivity.
    + unfold RETRY_AFTER_STATUS_CODES. simpl. set_solver.
  - reflexivity.
  - reflexivity.
  - reflexivity.
  - repeat constructor.
Defined.

(** X29. Six answers 413 or 429 that carry [Retry-After] do not raise as six
    answers of the force list do: the sixth, for which no retry is left, is
    handed back, [raise_for_status] raises inside the [try] block with
    [response] bound, and [fetch_news] returns the empty list. *)
Theorem fetch_news_throttled_six_times api_key net query h :
  let self := NewsFetcher_init api_key in
  (∀ n, n ≤ 5 →
     ∃ r, net (search_url self query) HEADERS n = Answered r
          ∧ retry_after r = true ∧ status_code r ∈ [413; 429]%Z) →
  fetch_news self net query h = Ok ([], h).
Proof.
  intros self Hnet.
  destruct (Hnet 5 ltac:(lia)) as (response & Hresp & _ & Hcode).
  apply (fetch_news_http_error _ _ _ _ response); [|set_solver by lia].
  unfold session_get. apply (send_after_resent _ _ _ 5); [done | | done |].
  - intros i Hi. destruct (Hnet i ltac:(lia)) as (r & Hr & Hafter & Hstatus).
    right. exists r. split_and!; [done | done |].
    unfold RETRY_AFTER_STATUS_CODES. set_solver.
  - unfold is_retry. simpl.
    rewrite bool_decide_eq_false_2; [done|]. set_solver by lia.
Qed.

Lemma fetch_news_throttled_six_times_witness :
  fetch_news (NewsFetcher_init "key") Cases.always_throttled "ВСМ"
    [Examples.a_first] = Ok ([], [Examples.a_first]).
Proof.
  apply (fetch_news_throttled_six_times "key" Cases.always_throttled "ВСМ"
           [Examples.a_first]).
  intros n Hn. exists Cases.throttled. split_and!; [done | done |].
  simpl. set_solver.
Defined.
